(** * ImageProcessor: mask and image preprocessing

    A shallow embedding of [Code/LunarModules/ImageProcessor.py].

    Arrays.  A numpy array of shape (H, W, C) is the nested list of its
    elements: H rows of W pixels of C channel values.  Element values are
    exact rationals: the development follows the program's comparisons,
    masked assignments and copies, and leaves rounding, NaN and infinities
    out.  An integer-typed array (the one-hot frame) stores its elements
    truncated toward zero.

    Doubles.  The program computes two products in binary64,
    [img * (1./255)] in [rescale] and [max * threshold] in
    [mask_max_pixel_normalize]; the arrays below carry the exact products.
    Statements about the values of these products are therefore given up to
    rounding ([within_rounding]), and the binary64 operations themselves
    ([b64_mul], [b64_div]) are used where the rounded value matters.

    Objects.  Arrays passed to and returned by the methods live in an object
    store; a method receives and returns references.  A masked assignment
    [img[mask] = v] updates the store in place, [copy.deepcopy], [np.zeros],
    [np.dstack] and [np.multiply] build new objects.  A deep copy that never
    leaves the method is an ordinary value.  A raised exception leaves the
    store as it was at the raise. *)

From Stdlib Require Import QArith Qabs Lqa ZArith Lia String SpecFloat.
From stdpp Require Import base list option.

Local Open Scope Q_scope.

(** ** Array values *)

Abbreviation channel := (list (list Q)) (only parsing).
Abbreviation ndarray := (list (list (list Q))) (only parsing).

Definition Qltb (x y : Q) : bool := negb (Qle_bool y x).

Definition qmax (x y : Q) : Q := if Qle_bool x y then y else x.

Definition max_list (l : list Q) : option Q :=
  match l with
  | [] => None
  | x :: l' => Some (fold_left qmax l' x)
  end.

(** Elementwise maps over a (H, W) plane and over a (H, W, C) array. *)
Definition map2 {A B} (f : A -> B) (c : list (list A)) : list (list B) :=
  map (map f) c.

Definition map3 (f : Q -> Q) (a : ndarray) : ndarray :=
  map (map (map f)) a.

Definition zip2 {A B C} (f : A -> B -> C)
  (x : list (list A)) (y : list (list B)) : list (list C) :=
  zip_with (zip_with f) x y.

(** [np.max(a)]: the largest element, none for a zero-size array. *)
Definition np_max (a : ndarray) : option Q := max_list (concat (concat a)).

(** [c.max()] of a plane. *)
Definition chan_max (c : channel) : option Q := max_list (concat c).

(** The pixel at row [i], column [j]. *)
Definition pixel {A} (a : list (list A)) (i j : nat) : option A :=
  a !! i ≫= (.!! j).

(** [a] has shape (H, W, C). *)
Definition shape3 (a : ndarray) (H W C : nat) : Prop :=
  length a = H /\
  Forall (fun row => length row = W /\ Forall (fun p => length p = C) row) a.

(** Every element of the array satisfies [P]. *)
Definition all3 (P : Q -> Prop) (a : ndarray) : Prop :=
  Forall (Forall (Forall P)) a.

(** ** Exceptions and the object store *)

Inductive exn := ValueError | IndexError | NameError | TypeError.

Inductive result (A : Type) :=
| Ok (a : A)
| Raise (e : exn).
Arguments Ok {A} a.
Arguments Raise {A} e.

Abbreviation loc := nat (only parsing).
Abbreviation heap := (list ndarray) (only parsing).

Definition M (A : Type) : Type := heap -> result A * heap.

Definition ret {A} (a : A) : M A := fun h => (Ok a, h).

Definition bind {A B} (m : M A) (f : A -> M B) : M B :=
  fun h =>
    match m h with
    | (Ok a, h') => f a h'
    | (Raise e, h') => (Raise e, h')
    end.

Notation "'let*' x ':=' m 'in' k" := (bind m (fun x => k))
  (at level 10, x name, m at level 100, k at level 200,
   format "'[v' 'let*'  x  ':='  m  'in' '/' k ']'").
Notation "m ';;' k" := (bind m (fun _ => k))
  (at level 100, k at level 200, right associativity,
   format "'[v' m  ';;' '/' k ']'").

(** A computation on private values: the store is not touched. *)
Definition pure_of {A} (r : result A) : M A := fun h => (r, h).

Definition or_raise {A} (e : exn) (o : option A) : result A :=
  match o with
  | Some a => Ok a
  | None => Raise e
  end.

Definition rbind {A B} (r : result A) (f : A -> result B) : result B :=
  match r with
  | Ok a => f a
  | Raise e => Raise e
  end.

Notation "'try' x ':=' r 'in' k" := (rbind r (fun x => k))
  (at level 10, x name, r at level 100, k at level 200,
   format "'[v' 'try'  x  ':='  r  'in' '/' k ']'").

(** Reading the object a name refers to. *)
Definition load (l : loc) : M ndarray :=
  fun h => (or_raise NameError (h !! l), h).

(** Overwriting the contents of an existing object. *)
Definition store (l : loc) (a : ndarray) : M unit :=
  fun h => (Ok tt, <[l := a]> h).

(** A new object, at a reference no existing object has. *)
Definition alloc (a : ndarray) : M loc :=
  fun h => (Ok (length h), h ++ [a]).

(** [img[cond(img)] = v]: in place, on every element satisfying [cond]. *)
Definition assign_where (cond : Q -> bool) (v : Q) (a : ndarray) : ndarray :=
  map3 (fun x => if cond x then v else x) a.

Definition mask_assign (img : loc) (cond : Q -> bool) (v : Q) : M unit :=
  let* a := load img in
  store img (assign_where cond v a).

(** [np.max(img)] of a stored array; ValueError on a zero-size array. *)
Definition np_max_at (img : loc) : M Q :=
  let* a := load img in
  pure_of (or_raise ValueError (np_max a)).

(** ** ImageProcessor.binarize *)

Definition binarize (img : loc) (threshold : Q) : M loc :=
  let* m := np_max_at img in
  (if Qltb 1 m then
     mask_assign img (fun x => Qltb threshold x) 255;;
     mask_assign img (fun x => Qle_bool x threshold) 0
   else
     mask_assign img (fun x => Qltb (threshold / 255) x) 255;;
     mask_assign img (fun x => Qle_bool x (threshold / 255)) 0);;
  ret img.

(** ** ImageProcessor.rescale *)

(** The new array holds the exact products; the doubles the method stores
    are [multiply_reciprocal] of the elements. *)
Definition rescale (img : loc) : M loc :=
  let* m := np_max_at img in
  if Qltb 1 m then
    let* a := load img in
    alloc (map3 (fun x => x * (1 / 255)) a)
  else
    ret img.

(** The two double operations of the method, after IEEE 754 binary64
    (53 bits, round to nearest even), and the double an integer literal
    denotes. *)
Definition b64_mul : spec_float -> spec_float -> spec_float := SFmul 53 1024.
Definition b64_div : spec_float -> spec_float -> spec_float := SFdiv 53 1024.
Definition b64_of_Z (n : Z) : spec_float := binary_normalize 53 1024 n 0 false.

(** The rational a finite double stands for. *)
Definition b64_to_Q (x : spec_float) : Q :=
  match x with
  | S754_finite s m e =>
      let v := match e with
               | Z0 => Z.pos m # 1
               | Z.pos k => Z.pos (m * 2 ^ k) # 1
               | Z.neg k => Z.pos m # 2 ^ k
               end in
      if s then - v else v
  | _ => 0
  end.

(** [np.multiply(img, 1./255)] at one element of a double array. *)
Definition multiply_reciprocal (x : spec_float) : spec_float :=
  b64_mul x (b64_div (b64_of_Z 1) (b64_of_Z 255)).

(** ** Planes of an array *)

(** [a[::,::,c]]; IndexError when the array has no channel [c].  An array
    without a pixel carries no channel count in this representation: each
    of its planes is the empty plane. *)
Definition slice (a : ndarray) (c : nat) : result channel :=
  or_raise IndexError (mapM (mapM (.!! c)) a).

(** [a[::,::,c] = v].  At each use below [c] is below the channel count the
    array was allocated with. *)
Definition set_channel (a : ndarray) (c : nat) (v : channel) : ndarray :=
  zip2 (fun p x => <[c := x]> p) a v.

(** [np.dstack(cs)]: the planes become the channels, in order; ValueError
    on an empty sequence.  The planes stacked below always come from arrays
    of one shape. *)
Fixpoint dstack (cs : list channel) : result ndarray :=
  match cs with
  | [] => Raise ValueError
  | c :: cs' =>
      match cs' with
      | [] => Ok (map2 (fun x => [x]) c)
      | _ :: _ => try a := dstack cs' in Ok (zip2 cons c a)
      end
  end.

(** [np.zeros((H, W, C))]. *)
Definition np_zeros (H W C : nat) : ndarray :=
  replicate H (replicate W (replicate C 0)).

(** [a.shape[0]] and [a.shape[1]]. *)
Definition shape0 (a : ndarray) : nat := length a.
Definition shape1 (a : ndarray) : nat :=
  match a with
  | [] => 0%nat
  | row :: _ => length row
  end.

(** ** ImageProcessor.mask_max_pixel_normalize *)

(** The cut [max_value * threshold] is the exact product here; the method
    compares with the double product, [b64_mul] of the two. *)
Definition normalize_channel (c : channel) (max_value threshold : Q) : channel :=
  map2 (fun x => if Qltb (max_value * threshold) x then 1 else x) c.

Definition mask_max_pixel_normalize (img : loc) (threshold : Q) : M loc :=
  let* a := load img in
  let* normalized_mask :=
    pure_of
      (try R := slice a 0 in
       try max_R_value := or_raise ValueError (chan_max R) in
       try G := slice a 1 in
       try max_G_value := or_raise ValueError (chan_max G) in
       try B := slice a 2 in
       try max_B_value := or_raise ValueError (chan_max B) in
       let normalized_R_channel := normalize_channel R max_R_value threshold in
       let normalized_G_channel := normalize_channel G max_G_value threshold in
       let normalized_B_channel := normalize_channel B max_B_value threshold in
       dstack [normalized_R_channel; normalized_G_channel; normalized_B_channel])
  in
  alloc normalized_mask.

(** ** ImageProcessor.mask_argmax *)

(** [argmax] of a channel vector: the first index holding the largest value. *)
Fixpoint argmax_from (best : Q) (besti i : nat) (l : list Q) : nat :=
  match l with
  | [] => besti
  | x :: l' =>
      if Qltb best x then argmax_from x i (S i) l'
      else argmax_from best besti (S i) l'
  end.

Definition argmax (p : list Q) : option nat :=
  match p with
  | [] => None
  | x :: l => Some (argmax_from x 0 1 l)
  end.

(** [a.argmax(axis=2)]; ValueError when there is no channel to choose from. *)
Definition argmax_axis2 (a : ndarray) : result (list (list nat)) :=
  or_raise ValueError (mapM (mapM argmax) a).

(** [cls[np.where(idx == k)] = 1]. *)
Definition where_set (idx : list (list nat)) (k : nat) (cls : channel) : channel :=
  zip2 (fun x (i : nat) => if Nat.eqb i k then 1 else x) cls idx.

Definition mask_argmax (predicted_mask : loc) : M loc :=
  let* a := load predicted_mask in
  let* predicted_mask_argmax :=
    pure_of
      (try idx := argmax_axis2 a in
       let zeros_like := map3 (fun _ => 0) a in
       try class1 := slice zeros_like 0 in
       try class2 := slice zeros_like 1 in
       try class3 := slice zeros_like 2 in
       try class4 := slice zeros_like 3 in
       let class1 := where_set idx 0 class1 in
       let class2 := where_set idx 1 class2 in
       let class3 := where_set idx 2 class3 in
       let class4 := where_set idx 3 class4 in
       dstack [class1; class2; class3; class4])
  in
  alloc predicted_mask_argmax.

(** ** Class maps *)

Record Row := { name : string; r : Q; g : Q; b : Q }.

(** The table both codec methods build when [class_map] is None. *)
Definition default_class_map : list Row :=
  [ {| name := "Sky"; r := 255; g := 0; b := 0 |};
    {| name := "Big Rocks"; r := 0; g := 0; b := 255 |};
    {| name := "Small Rocks"; r := 0; g := 255; b := 0 |};
    {| name := "Unlabeled"; r := 0; g := 0; b := 0 |} ].

(** ** ImageProcessor.one_hot_encode *)

(** Storing into the integer frame truncates toward zero; the values stored
    below are within the range of the frame's integer type. *)
Definition astype_int (x : Q) : Q := inject_Z (Z.quot (Qnum x) (Z.pos (Qden x))).

(** The body of the loop up to [new_channel], for one row of the class map. *)
Definition encode_class (img_copy : ndarray) (row : Row) : result channel :=
  let new_img := img_copy in
  try R := slice new_img 0 in
  try G := slice new_img 1 in
  try B := slice new_img 2 in
  let matched :=
    zip2 andb
      (zip2 andb (map2 (fun x => Qeq_bool x (r row / 255)) R)
                 (map2 (fun x => Qeq_bool x (g row / 255)) G))
      (map2 (fun x => Qeq_bool x (b row / 255)) B) in
  let new_img :=
    zip2 (fun (m : bool) p => if m then map (fun _ => 2) p else p) matched new_img in
  let new_img := assign_where (fun x => Qltb x 2) 0 new_img in
  let new_img := assign_where (fun x => Qeq_bool x 2) 1 new_img in
  slice new_img 0.

Fixpoint encode_rows (img_copy : ndarray) (rows : list Row)
    (frame : ndarray) (class_channel : nat) : result ndarray :=
  match rows with
  | [] => Ok frame
  | row :: rows' =>
      try new_channel := encode_class img_copy row in
      encode_rows img_copy rows'
        (set_channel frame class_channel (map2 astype_int new_channel))
        (S class_channel)
  end.

Definition one_hot_encode (img : loc) (class_map : option (list Row)) : M loc :=
  let class_map := default default_class_map class_map in
  let* a := load img in
  let img_copy := a in
  let frame := np_zeros (shape0 a) (shape1 a) (length class_map) in
  let* frame := pure_of (encode_rows img_copy class_map frame 0) in
  alloc frame.

(** ** ImageProcessor.reverse_one_hot_encode *)

(** The body of the loop, for one row of the class map: the three planes
    appended to the per-colour lists. *)
Definition decode_class (img : ndarray) (row : Row) (class_channel : nat)
  : result (channel * channel * channel) :=
  try current_class_channel := slice img class_channel in
  let temp_rgb := np_zeros (shape0 img) (shape1 img) 3 in
  let temp_rgb :=
    if Qltb 0 (r row) then set_channel temp_rgb 0 current_class_channel
    else temp_rgb in
  let temp_rgb :=
    if Qltb 0 (g row) then set_channel temp_rgb 1 current_class_channel
    else temp_rgb in
  let temp_rgb :=
    if Qltb 0 (b row) then set_channel temp_rgb 2 current_class_channel
    else temp_rgb in
  try red := slice temp_rgb 0 in
  try green := slice temp_rgb 1 in
  try blue := slice temp_rgb 2 in
  Ok (red, green, blue).

Fixpoint decode_rows (img : ndarray) (rows : list Row) (class_channel : nat)
    (all_red_channels all_green_channels all_blue_channels : list channel)
  : result (list channel * list channel * list channel) :=
  match rows with
  | [] => Ok (all_red_channels, all_green_channels, all_blue_channels)
  | row :: rows' =>
      try planes := decode_class img row class_channel in
      decode_rows img rows' (S class_channel)
        (all_red_channels ++ [planes.1.1])
        (all_green_channels ++ [planes.1.2])
        (all_blue_channels ++ [planes.2])
  end.

(** [np.max(a, axis=2)]. *)
Definition max_axis2 (a : ndarray) : result channel :=
  or_raise ValueError (mapM (mapM max_list) a).

Definition reverse_one_hot_encode (img : loc) (class_map : option (list Row))
  : M loc :=
  let class_map := default default_class_map class_map in
  let* img := binarize img 128 in
  let* a := load img in
  let* rgb_img :=
    pure_of
      (try stacks := decode_rows a class_map 0 [] [] [] in
       try red_stack := dstack (stacks.1.1) in
       try green_stack := dstack (stacks.1.2) in
       try blue_stack := dstack (stacks.2) in
       let rgb_img := np_zeros (shape0 a) (shape1 a) 3 in
       try red := max_axis2 red_stack in
       let rgb_img := set_channel rgb_img 0 red in
       try green := max_axis2 green_stack in
       let rgb_img := set_channel rgb_img 1 green in
       try blue := max_axis2 blue_stack in
       let rgb_img := set_channel rgb_img 2 blue in
       Ok rgb_img)
  in
  alloc rgb_img.

(** ** The preprocessing pipelines *)

Definition preprocessor_images (image : loc) (b_threshold : Q) : M loc :=
  rescale image.

Definition preprocessor_masks (image : loc) (b_threshold : Q)
    (class_map : option (list Row)) : M loc :=
  let* image := mask_max_pixel_normalize image 0.8 in
  let* image := one_hot_encode image class_map in
  rescale image.

(** ** ImageProcessor.data_augmentation and RandomChoice

    The method writes to neither of its arguments ([image * 255] is a new
    array) and returns two new arrays, so it is given on array values.
    [TF.vflip] turns a PIL image upside down and [TF.hflip] left to right.
    The random sources of the process (the [random] module, and the
    generator the torchvision transforms draw from) are a state of a type
    [W]; torchvision's [ColorJitter] is taken as it comes. *)

Class RandomSource (W : Type) := {
  (** [random.random()] *)
  random_random : W -> Q * W;
  (** the index [random.choice] draws in a sequence of [n] elements *)
  random_below : nat -> W -> nat * W;
  random_below_lt : forall n w, (0 < n)%nat -> ((random_below n w).1 < n)%nat
}.

(** A torchvision transform: an image to an image, drawing its own random
    parameters. *)
Definition transform (W : Type) : Type := ndarray -> W -> ndarray * W.

(** [x.astype(np.uint8)]: toward zero, then modulo 256. *)
Definition astype_uint8 (x : Q) : Q :=
  inject_Z (Z.quot (Qnum x) (Z.pos (Qden x)) mod 256).

Definition vflip (img : ndarray) : ndarray := reverse img.
Definition hflip (img : ndarray) : ndarray := map reverse img.

(** [[t(img) for img in imgs]] *)
Fixpoint apply_each {W} (t : transform W) (imgs : list ndarray) (w : W)
  : list ndarray * W :=
  match imgs with
  | [] => ([], w)
  | img :: imgs' =>
      let (out, w1) := t img w in
      let (outs, w2) := apply_each t imgs' w1 in
      (out :: outs, w2)
  end.

(** [RandomChoice.__call__]; [random.choice] raises IndexError on an empty
    sequence. *)
Definition RandomChoice_call {W} `{RandomSource W}
    (transforms : list (transform W)) (imgs : list ndarray) (w : W)
  : result (list ndarray) * W :=
  match transforms with
  | [] => (Raise IndexError, w)
  | _ :: _ =>
      let (k, w1) := random_below (length transforms) w in
      match transforms !! k with
      | Some t => let (outs, w2) := apply_each t imgs w1 in (Ok outs, w2)
      | None => (Raise IndexError, w1)
      end
  end.

(** What the method takes from PIL and from double arithmetic.
    [Image.fromarray] makes an RGB image of a byte array of shape (H, W, 3)
    that has a pixel, and the image is then that array; on any other array
    it may raise (TypeError on a channel count PIL has no mode for).  The
    products [x * 255] and the quotients [k / 255] are doubles; they are
    exact at 0 and at the top of either scale. *)
Class Imaging := {
  Image_fromarray : ndarray -> result ndarray;
  Image_fromarray_rgb : forall (a : ndarray) (H W : nat),
    shape3 a H W 3 -> (0 < H)%nat -> (0 < W)%nat -> Image_fromarray a = Ok a;
  times_255 : Q -> Q;
  times_255_0 : times_255 0 = 0;
  times_255_1 : times_255 1 = 255;
  over_255 : Q -> Q;
  over_255_0 : over_255 0 == 0;
  over_255_255 : over_255 255 == 1
}.

(** The double written [0.2]. *)
Definition double_0_2 : Q :=
  Eval vm_compute in b64_to_Q (b64_div (b64_of_Z 2) (b64_of_Z 10)).

Definition data_augmentation {W} {RS : RandomSource W} {IM : Imaging}
    (ColorJitter : transform W) (image mask : ndarray) (w : W)
  : result (ndarray * ndarray) * W :=
  match Image_fromarray (map3 astype_uint8 (map3 times_255 image)) with
  | Raise e => (Raise e, w)
  | Ok pil_image =>
  match Image_fromarray (map3 astype_uint8 (map3 times_255 mask)) with
  | Raise e => (Raise e, w)
  | Ok pil_mask =>
      let (u1, w) := random_random w in
      let (pil_image, pil_mask) :=
        if Qltb double_0_2 u1 then (vflip pil_image, vflip pil_mask)
        else (pil_image, pil_mask) in
      let (u2, w) := random_random w in
      let (pil_image, pil_mask) :=
        if Qltb double_0_2 u2 then (hflip pil_image, hflip pil_mask)
        else (pil_image, pil_mask) in
      match RandomChoice_call [ColorJitter] [pil_image] w with
      | (Ok [pil_image], w) =>
          (Ok (map3 over_255 pil_image, map3 over_255 pil_mask), w)
      | (Ok _, w) => (Raise ValueError, w)
      | (Raise e, w) => (Raise e, w)
      end
  end
  end.

(** * Pixelwise descriptions

    What the methods compute at one element or one pixel, and the
    vocabulary of the statements below. *)

(** The two masked assignments of [binarize], one after the other. *)
Definition two_level (cut : Q) (x : Q) : Q :=
  let x' := if Qltb cut x then 255 else x in
  if Qle_bool x' cut then 0 else x'.

(** Channel [c] of a pixel. *)
Definition chan (c : nat) (p : list Q) : Q := default 0 (p !! c).

(** [m] is the largest value of channel [c] of [a]. *)
Definition channel_max (a : ndarray) (c : nat) (m : Q) : Prop :=
  (exists i j p, pixel a i j = Some p /\ p !! c = Some m) /\
  (forall i j p x, pixel a i j = Some p -> p !! c = Some x -> x <= m).

(** The pixel [mask_max_pixel_normalize] returns, given the three channel
    maxima. *)
Definition normalize_pixel (mR mG mB threshold : Q) (p : list Q) : list Q :=
  [ (if Qltb (mR * threshold) (chan 0 p) then 1 else chan 0 p);
    (if Qltb (mG * threshold) (chan 1 p) then 1 else chan 1 p);
    (if Qltb (mB * threshold) (chan 2 p) then 1 else chan 2 p) ].

(** Channel [k] holds the largest value of [p], every earlier channel a
    strictly smaller one. *)
Definition first_max (p : list Q) (k : nat) : Prop :=
  exists m, p !! k = Some m /\
    (forall c x, p !! c = Some x -> x <= m) /\
    (forall c x, (c < k)%nat -> p !! c = Some x -> x < m).

(** The vector of [N] channels with 1 in channel [k] and 0 elsewhere. *)
Definition one_hot (N k : nat) : list Q :=
  map (fun c => if Nat.eqb c k then 1 else 0) (seq 0 N).

(** The entry of [idx] at a pixel. *)
Definition argmax_index (p : list Q) : nat := default 0%nat (argmax p).

(** The boolean mask of [encode_class] at one pixel. *)
Definition hit (row : Row) (p : list Q) : bool :=
  Qeq_bool (chan 0 p) (r row / 255) && Qeq_bool (chan 1 p) (g row / 255)
  && Qeq_bool (chan 2 p) (b row / 255).

(** The value [encode_class] leaves in [new_channel] at one pixel. *)
Definition class_value (row : Row) (p : list Q) : Q :=
  chan 0
    (map (fun x => if Qeq_bool x 2 then 1 else x)
       (map (fun x => if Qltb x 2 then 0 else x)
          (if hit row p then map (fun _ => 2) p else p))).

(** The pixel of the frame. *)
Definition encode_pixel (cm : list Row) (p : list Q) : list Q :=
  map (fun row => astype_int (class_value row p)) cm.

(** Numeric equality of two pixels, channel by channel. *)
Definition pixel_eq (p q : list Q) : Prop := Forall2 Qeq p q.

(** The canonical colour of a class on the [0,1] scale and on the 0-255
    scale. *)
Definition color01 (row : Row) : list Q := [r row / 255; g row / 255; b row / 255].
Definition color255 (row : Row) : list Q := [r row; g row; b row].

(** Two rows carry the same (r, g, b) triple. *)
Definition same_color (row1 row2 : Row) : Prop :=
  r row1 == r row2 /\ g row1 == g row2 /\ b row1 == b row2.

(** No two rows of the class map share an (r, g, b) triple. *)
Definition distinct_colors (cm : list Row) : Prop :=
  forall i j row1 row2,
    cm !! i = Some row1 -> cm !! j = Some row2 -> i <> j -> ~ same_color row1 row2.

(** The components of a colour are on the 8-bit scale. *)
Definition rgb_color (row : Row) : Prop :=
  0 <= r row <= 255 /\ 0 <= g row <= 255 /\ 0 <= b row <= 255.

(** The sum of a pixel over the channel axis. *)
Definition channel_sum (q : list Q) : Q := fold_right Qplus 0 q.

(** The pixel of [temp_rgb] for one class. *)
Definition temp_pixel (row : Row) (k : nat) (q : list Q) : list Q :=
  let t := [0; 0; 0] in
  let t := if Qltb 0 (r row) then <[0%nat := chan k q]> t else t in
  let t := if Qltb 0 (g row) then <[1%nat := chan k q]> t else t in
  if Qltb 0 (b row) then <[2%nat := chan k q]> t else t.

(** What the classes, from channel [k] on, put on colour plane [c]. *)
Fixpoint plane_fns (c k : nat) (rows : list Row) : list (list Q -> Q) :=
  match rows with
  | [] => []
  | row :: rows' => (fun q => chan c (temp_pixel row k q)) :: plane_fns c (S k) rows'
  end.

Definition max_of (l : list Q) : Q := default 0 (max_list l).

(** The pixel of [rgb_img]: per colour plane, the largest contribution of
    the classes. *)
Definition decode_pixel (cm : list Row) (q : list Q) : list Q :=
  [ max_of (map (fun f => f q) (plane_fns 0 0 cm));
    max_of (map (fun f => f q) (plane_fns 1 0 cm));
    max_of (map (fun f => f q) (plane_fns 2 0 cm)) ].

(** [computed] is [exact] up to the rounding of at most two double
    operations: a relative error of 2^-51, or the spacing 2^-1074 of the
    smallest doubles. *)
Definition within_rounding (exact computed : Q) : Prop :=
  Qabs (computed - exact) <= Qabs exact * (1 # 2 ^ 51) + (1 # 2 ^ 1074).

(** The computation changes no array that is in the store when it starts. *)
Definition preserves {A} (m : M A) : Prop :=
  forall (h : heap) (l : loc) (x : ndarray),
    h !! l = Some x -> (m h).2 !! l = Some x.

(** The geometric part of the augmentation: the two flips that were drawn. *)
Definition flips (v hf : bool) (img : ndarray) : ndarray :=
  let img := if v then vflip img else img in
  if hf then hflip img else img.

(** The byte image built from an array of the [0,1] scale. *)
Definition to_bytes {IM : Imaging} (img : ndarray) : ndarray :=
  map3 astype_uint8 (map3 times_255 img).

(** Two arrays of one shape with numerically equal elements. *)
Definition array_eq (a a' : ndarray) : Prop :=
  Forall2 (Forall2 (Forall2 Qeq)) a a'.

(** [x] exceeds [exact] by more than rounding: it is above every value the
    doubles can give for [exact]. *)
Definition exceeds_rounded (exact x : Q) : Prop :=
  forall cut, within_rounding exact cut -> cut < x.

(** PIL with exact products and quotients, for examples: an array whose
    pixels have three channels is an RGB image. *)
Definition exact_imaging : Imaging.
Proof.
  refine {| Image_fromarray := fun a =>
              match a with
              | (p :: _) :: _ =>
                  if Nat.eqb (length p) 3 then Ok a else Raise TypeError
              | _ => Raise ValueError
              end;
            times_255 := fun x => x * 255;
            over_255 := fun x => x / 255 |}.
  - intros a H W [HH Hs] H0 W0.
    destruct a as [|[|p row] a]; simpl in HH.
    + exfalso. lia.
    + apply Forall_cons_1 in Hs as [[Hr _] _]. simpl in Hr. exfalso. lia.
    + apply Forall_cons_1 in Hs as [[_ Hp] _].
      apply Forall_cons_1 in Hp as [-> _]. reflexivity.
  - reflexivity.
  - reflexivity.
  - reflexivity.
  - reflexivity.
Defined.

(** A random source that repeats one draw, for examples. *)
Definition constant_source (u : Q) : RandomSource unit :=
  {| random_random := fun w => (u, w);
     random_below := fun _ w => (0%nat, w);
     random_below_lt := fun n w Hn => Hn |}.

(** * Properties *)

(** ** Comparisons and maxima *)

Lemma Qltb_lt (x y : Q) : Qltb x y = true <-> x < y.
Proof.
  unfold Qltb. rewrite negb_true_iff, <- not_true_iff_false, Qle_bool_iff.
  split; [apply Qnot_le_lt | apply Qlt_not_le].
Qed.

Lemma Qltb_ge (x y : Q) : Qltb x y = false <-> y <= x.
Proof.
  unfold Qltb. rewrite negb_false_iff. apply Qle_bool_iff.
Qed.

Lemma Qle_bool_gt (x y : Q) : Qle_bool x y = false <-> y < x.
Proof.
  rewrite <- Qltb_lt. unfold Qltb. by rewrite negb_true_iff.
Qed.

Lemma qmax_cases (x y : Q) :
  (qmax x y = x /\ y <= x) \/ (qmax x y = y /\ x <= y).
Proof.
  unfold qmax. destruct (Qle_bool x y) eqn:E.
  - right. by apply Qle_bool_iff in E.
  - left. split; [done|]. apply Qle_bool_gt in E. by apply Qlt_le_weak.
Qed.

Lemma fold_qmax_spec (l : list Q) (x : Q) :
  let m := fold_left qmax l x in
  (m = x \/ m ∈ l) /\ x <= m /\ Forall (fun y => y <= m) l.
Proof.
  revert x. induction l as [|y l IH]; intros x; simpl.
  - split; [by left|]. split; [apply Qle_refl | constructor].
  - destruct (IH (qmax x y)) as (Hin & Hle & Hall).
    destruct (qmax_cases x y) as [[E Hyx]|[E Hxy]]; rewrite E in *.
    + split; [destruct Hin; [by left | right; by right]|].
      split; [done|]. constructor; [|done]. by eapply Qle_trans.
    + split; [destruct Hin as [->|]; right; [left | by right]|].
      split; [by eapply Qle_trans|]. by constructor.
Qed.

(** [max_list] returns an element that bounds all the others. *)
Lemma max_list_spec (l : list Q) (m : Q) :
  max_list l = Some m -> m ∈ l /\ Forall (fun y => y <= m) l.
Proof.
  destruct l as [|x l]; simpl; [done|]. intros [= <-].
  destruct (fold_qmax_spec l x) as (Hin & Hle & Hall). split.
  - destruct Hin as [->|]; [left | by right].
  - by constructor.
Qed.

Lemma max_list_is_Some (l : list Q) : l <> [] -> is_Some (max_list l).
Proof. destruct l; [done|]. by eexists. Qed.

Lemma all3_concat (P : Q -> Prop) (a : ndarray) :
  all3 P a <-> Forall P (concat (concat a)).
Proof.
  unfold all3. rewrite !Forall_concat. done.
Qed.

Lemma np_max_bound (a : ndarray) (m : Q) :
  np_max a = Some m -> all3 (fun x => x <= m) a.
Proof.
  intros H. apply all3_concat. by apply max_list_spec.
Qed.

Lemma np_max_None_all3 (P : Q -> Prop) (a : ndarray) :
  np_max a = None -> all3 P a.
Proof.
  unfold np_max. intros Hm. destruct (concat (concat a)) eqn:E; [|done].
  apply all3_concat. rewrite E. constructor.
Qed.

(** ** Elementwise maps *)

Lemma map3_map3 (f k : Q -> Q) (a : ndarray) :
  map3 f (map3 k a) = map3 (fun x => f (k x)) a.
Proof.
  unfold map3. rewrite map_map. apply map_ext; intros row.
  rewrite map_map. apply map_ext; intros p. by rewrite map_map.
Qed.

Lemma map3_ext_all3 (f k : Q -> Q) (a : ndarray) :
  all3 (fun x => f x = k x) a -> map3 f a = map3 k a.
Proof.
  unfold all3, map3. intros H.
  apply Forall_fmap_ext_1. eapply List.Forall_impl; [|exact H]. intros row Hrow.
  apply Forall_fmap_ext_1. eapply List.Forall_impl; [|exact Hrow]. intros p Hp.
  by apply Forall_fmap_ext_1.
Qed.

Lemma all3_map3 (P : Q -> Prop) (f : Q -> Q) (a : ndarray) :
  all3 (fun x => P (f x)) a -> all3 P (map3 f a).
Proof.
  unfold all3, map3. intros H.
  apply Forall_fmap. eapply List.Forall_impl; [|exact H]. intros row Hrow.
  apply Forall_fmap. eapply List.Forall_impl; [|exact Hrow]. intros p Hp.
  by apply Forall_fmap.
Qed.

Lemma all3_impl (P P' : Q -> Prop) (a : ndarray) :
  all3 P a -> (forall x, P x -> P' x) -> all3 P' a.
Proof.
  unfold all3. intros H HP.
  eapply List.Forall_impl; [|exact H]. intros row Hrow.
  eapply List.Forall_impl; [|exact Hrow]. intros p Hp.
  eapply List.Forall_impl; [|exact Hp]. done.
Qed.

Lemma all3_true (P : Q -> Prop) (a : ndarray) : (forall x, P x) -> all3 P a.
Proof.
  intros HP. unfold all3.
  apply Forall_forall; intros row _. apply Forall_forall; intros p _.
  apply Forall_forall; intros x _. apply HP.
Qed.

(** ** The store *)

Lemma load_ok (h : heap) (l : loc) (a : ndarray) :
  h !! l = Some a -> load l h = (Ok a, h).
Proof. unfold load. by intros ->. Qed.

Lemma mask_assign_ok (h : heap) (l : loc) (a : ndarray) cond v :
  h !! l = Some a ->
  mask_assign l cond v h = (Ok tt, <[l := assign_where cond v a]> h).
Proof.
  intros H. unfold mask_assign, bind. by rewrite (load_ok _ _ _ H).
Qed.

Lemma two_level_range (cut x : Q) : two_level cut x = 0 \/ two_level cut x = 255.
Proof.
  unfold two_level. destruct (Qltb cut x) eqn:E1.
  - destruct (Qle_bool 255 cut); [by left | by right].
  - apply Qltb_ge in E1. apply Qle_bool_iff in E1. rewrite E1. by left.
Qed.

Lemma two_level_below (cut x : Q) :
  cut < 255 -> two_level cut x = if Qltb cut x then 255 else 0.
Proof.
  intros Hc. unfold two_level. destruct (Qltb cut x) eqn:E1.
  - apply Qle_bool_gt in Hc. by rewrite Hc.
  - apply Qltb_ge in E1. apply Qle_bool_iff in E1. by rewrite E1.
Qed.

Lemma binarize_run (h : heap) (img : loc) (a : ndarray) (threshold m : Q) :
  h !! img = Some a -> np_max a = Some m ->
  binarize img threshold h =
    (Ok img,
     <[img := map3 (two_level (if Qltb 1 m then threshold else threshold / 255)) a]> h).
Proof.
  intros Ha Hm.
  assert (Hlt : (img < length h)%nat) by (by eapply lookup_lt_Some).
  unfold binarize, np_max_at. unfold bind at 1 2. rewrite (load_ok _ _ _ Ha).
  unfold pure_of. rewrite Hm. simpl.
  assert (Hgen : forall cut,
    bind (bind (mask_assign img (fun x => Qltb cut x) 255)
               (fun _ => mask_assign img (fun x => Qle_bool x cut) 0))
         (fun _ => ret img) h
    = (Ok img, <[img := map3 (two_level cut) a]> h)).
  { intros cut. unfold bind at 1 2. rewrite (mask_assign_ok _ _ _ _ _ Ha).
    rewrite (mask_assign_ok _ _ (assign_where (fun x => Qltb cut x) 255 a));
      [|by apply list_lookup_insert_eq].
    unfold ret, assign_where. by rewrite list_insert_insert_eq, map3_map3. }
  destruct (Qltb 1 m); apply Hgen.
Qed.

Lemma binarize_empty (h : heap) (img : loc) (a : ndarray) (threshold : Q) :
  h !! img = Some a -> np_max a = None ->
  binarize img threshold h = (Raise ValueError, h).
Proof.
  intros Ha Hm. unfold binarize, np_max_at. unfold bind at 1 2.
  rewrite (load_ok _ _ _ Ha). unfold pure_of. by rewrite Hm.
Qed.

(** ** binarize *)



(** ** rescale *)

Lemma rescale_run (h : heap) (img : loc) (a : ndarray) (m : Q) :
  h !! img = Some a -> np_max a = Some m ->
  rescale img h =
    if Qltb 1 m then (Ok (length h), h ++ [map3 (fun x => x * (1 / 255)) a])
    else (Ok img, h).
Proof.
  intros Ha Hm. unfold rescale, np_max_at. unfold bind at 1 2.
  rewrite (load_ok _ _ _ Ha). unfold pure_of. rewrite Hm. simpl.
  destruct (Qltb 1 m); [|done].
  unfold bind. by rewrite (load_ok _ _ _ Ha).
Qed.

Lemma within_rounding_exact (exact computed : Q) :
  computed == exact -> within_rounding exact computed.
Proof.
  intros Heq. unfold within_rounding.
  assert (H0 : computed - exact == 0) by lra. rewrite H0.
  change (Qabs 0) with 0.
  pose proof (Qabs_nonneg exact).
  assert (0 <= Qabs exact * (1 # 2 ^ 51)) by (apply Qmult_le_0_compat; [done|discriminate]).
  assert (0 <= 1 # 2 ^ 1074) by discriminate.
  lra.
Qed.

Lemma Qdiv_255 (x : Q) : x / 255 = x * (1 # 255).
Proof. reflexivity. Qed.




(** On the 256 values of a byte image the double product is within the
    rounding the statement above allows, and between 0 and 1. *)
Lemma multiply_reciprocal_bytes (k : Z) :
  (0 <= k <= 255)%Z ->
  let y := b64_to_Q (multiply_reciprocal (b64_of_Z k)) in
  within_rounding (inject_Z k / 255) y /\ 0 <= y <= 1.
Proof.
  intros Hk.
  assert (Hall : forallb (fun n =>
            let k := Z.of_nat n in
            let y := b64_to_Q (multiply_reciprocal (b64_of_Z k)) in
            Qle_bool (Qabs (y - inject_Z k / 255))
                     (Qabs (inject_Z k / 255) * (1 # 2 ^ 51) + (1 # 2 ^ 1074))
            && Qle_bool 0 y && Qle_bool y 1) (seq 0 256) = true)
    by (by vm_compute).
  rewrite forallb_forall in Hall.
  specialize (Hall (Z.to_nat k)). rewrite Z2Nat.id in Hall by lia.
  assert (Hin : In (Z.to_nat k) (seq 0 256)) by (apply in_seq; lia).
  apply Hall in Hin. cbv zeta in Hin.
  apply andb_prop in Hin as [Hin H1]. apply andb_prop in Hin as [Hw H0].
  apply Qle_bool_iff in Hw, H0, H1. done.
Qed.

(** ** Planes and pixels *)

Lemma elem_of_concat {A} (x : A) (ls : list (list A)) :
  x ∈ concat ls <-> exists l, x ∈ l /\ l ∈ ls.
Proof.
  rewrite list_elem_of_In, in_concat. split.
  - intros (l & Hl & Hx). exists l. by rewrite !list_elem_of_In.
  - intros (l & Hx & Hl). exists l. by rewrite <- !list_elem_of_In.
Qed.

Section planes.
Context {A B C D : Type}.

Lemma map2_map2 (f : B -> C) (k : A -> B) (a : list (list A)) :
  map2 f (map2 k a) = map2 (fun p => f (k p)) a.
Proof.
  unfold map2. rewrite map_map. apply map_ext; intros row. by rewrite map_map.
Qed.

Lemma map2_ext_Forall (f k : A -> B) (a : list (list A)) :
  Forall (Forall (fun p => f p = k p)) a -> map2 f a = map2 k a.
Proof.
  intros H. unfold map2. apply Forall_fmap_ext_1.
  eapply List.Forall_impl; [|exact H]. intros row Hrow.
  by apply Forall_fmap_ext_1.
Qed.

Lemma map2_id (a : list (list A)) : map2 (fun p => p) a = a.
Proof.
  unfold map2. induction a as [|row a IH]; simpl; [done|].
  by rewrite IH, map_id.
Qed.

Lemma zip2_map2 (f : B -> C -> D) (k1 : A -> B) (k2 : A -> C)
    (a : list (list A)) :
  zip2 f (map2 k1 a) (map2 k2 a) = map2 (fun p => f (k1 p) (k2 p)) a.
Proof.
  unfold zip2, map2. induction a as [|row a IH]; simpl; [done|].
  rewrite IH. f_equal. clear IH.
  induction row as [|p row IH]; simpl; [done|]. by rewrite IH.
Qed.

Lemma mapM2_Some (f : A -> option B) (k : A -> B) (a : list (list A)) :
  Forall (Forall (fun p => f p = Some (k p))) a ->
  mapM (mapM f) a = Some (map2 k a).
Proof.
  assert (Hrow : forall row, Forall (fun p => f p = Some (k p)) row ->
                   mapM f row = Some (map k row)).
  { induction 1 as [|p row Hp _ IH]; simpl; [done|]. by rewrite Hp, IH. }
  induction 1 as [|row a Hr _ IH]; simpl; [done|].
  by rewrite (Hrow _ Hr), IH.
Qed.

Lemma pixel_map2 (f : A -> B) (a : list (list A)) (i j : nat) :
  pixel (map2 f a) i j = f <$> pixel a i j.
Proof.
  unfold pixel, map2. rewrite list_lookup_fmap.
  destruct (a !! i) as [row|]; simpl; [|done]. by rewrite list_lookup_fmap.
Qed.

Lemma pixel_Forall (P : A -> Prop) (a : list (list A)) (i j : nat) (p : A) :
  Forall (Forall P) a -> pixel a i j = Some p -> P p.
Proof.
  unfold pixel. intros H Hp.
  destruct (a !! i) as [row|] eqn:Hi; simpl in Hp; [|done].
  eapply Forall_lookup_1; [|exact Hp]. eapply Forall_lookup_1; [exact H|exact Hi].
Qed.

Lemma elem_of_concat_map2 (f : A -> B) (a : list (list A)) (y : B) :
  y ∈ concat (map2 f a) <-> exists i j p, pixel a i j = Some p /\ y = f p.
Proof.
  unfold map2, pixel. rewrite elem_of_concat. split.
  - intros (row' & Hy & Hrow). apply list_elem_of_fmap in Hrow as (row & -> & Hrow).
    apply list_elem_of_fmap in Hy as (p & -> & Hp).
    apply list_elem_of_lookup in Hrow as [i Hi].
    apply list_elem_of_lookup in Hp as [j Hj].
    exists i, j, p. rewrite Hi. simpl. done.
  - intros (i & j & p & Hp & ->).
    destruct (a !! i) as [row|] eqn:Hi; simpl in Hp; [|done].
    exists (map f row). split.
    + apply list_elem_of_fmap. exists p. split; [done|].
      by eapply list_elem_of_lookup_2.
    + apply list_elem_of_fmap. exists row. split; [done|].
      by eapply list_elem_of_lookup_2.
Qed.
End planes.

Lemma pixel_all {A} (P : A -> Prop) (a : list (list A)) :
  (forall i j p, pixel a i j = Some p -> P p) -> Forall (Forall P) a.
Proof.
  intros Hp. apply Forall_lookup. intros i row Hi.
  apply Forall_lookup. intros j p Hj.
  apply (Hp i j p). unfold pixel. rewrite Hi. done.
Qed.

(** Two elementwise maps over the same plane agree when they agree pixel by
    pixel. *)
Ltac pixelwise p :=
  apply map2_ext_Forall, List.Forall_forall; intros ? _;
  apply List.Forall_forall; intros p _.

Lemma shape3_pixels (a : ndarray) (H W C : nat) :
  shape3 a H W C -> Forall (Forall (fun p => length p = C)) a.
Proof.
  intros [_ Hs]. eapply List.Forall_impl; [|exact Hs]. by intros row [_ ?].
Qed.

Lemma chan_lookup (c : nat) (p : list Q) :
  (c < length p)%nat -> p !! c = Some (chan c p).
Proof.
  intros Hc. unfold chan.
  destruct (lookup_lt_is_Some_2 p c Hc) as [x ->]. done.
Qed.

Lemma slice_ok (a : ndarray) (H W C c : nat) :
  shape3 a H W C -> (c < C)%nat -> slice a c = Ok (map2 (chan c) a).
Proof.
  intros Hs Hc. unfold slice. rewrite (mapM2_Some _ (chan c)); [done|].
  eapply List.Forall_impl; [|exact (shape3_pixels _ _ _ _ Hs)]. intros row Hrow.
  eapply List.Forall_impl; [|exact Hrow]. intros p Hp. simpl in Hp.
  apply chan_lookup. lia.
Qed.

Lemma replicate_length_map {A B} (l : list A) (y : B) :
  replicate (length l) y = map (fun _ => y) l.
Proof. induction l as [|x l IH]; simpl; [done|]. by rewrite IH. Qed.

Lemma np_zeros_shape (a : ndarray) (H W C N : nat) :
  shape3 a H W C ->
  np_zeros (shape0 a) (shape1 a) N = map2 (fun _ => replicate N 0) a.
Proof.
  intros [_ Hs]. unfold np_zeros, shape0, map2.
  rewrite replicate_length_map. apply Forall_fmap_ext_1.
  assert (HW : a <> [] -> shape1 a = W).
  { destruct a as [|row a]; [done|]. intros _.
    by apply Forall_cons_1 in Hs as [[? _] _]. }
  apply List.Forall_forall. intros row Hin.
  destruct (proj1 (List.Forall_forall _ _) Hs row Hin) as [Hr _].
  rewrite HW; [|by intros ->].
  by rewrite <- Hr, replicate_length_map.
Qed.

Lemma dstack_map2 (gs : list (list Q -> Q)) (a : ndarray) :
  gs <> [] ->
  dstack (map (fun k => map2 k a) gs) = Ok (map2 (fun p => map (fun k => k p) gs) a).
Proof.
  induction gs as [|k1 gs IH]; [done|]. intros _.
  destruct gs as [|k2 gs].
  - simpl. by rewrite map2_map2.
  - change (dstack (map (fun k => map2 k a) (k1 :: k2 :: gs)))
      with (try s := dstack (map (fun k => map2 k a) (k2 :: gs)) in
            Ok (zip2 cons (map2 k1 a) s)).
    rewrite IH by done. simpl. by rewrite zip2_map2.
Qed.

Lemma shape3_map2 (k : list Q -> list Q) (a : ndarray) (H W C C' : nat) :
  shape3 a H W C -> (forall p, length p = C -> length (k p) = C') ->
  shape3 (map2 k a) H W C'.
Proof.
  intros [HH Hs] Hk. split; [unfold map2; by rewrite length_map|].
  unfold map2. apply Forall_fmap.
  eapply List.Forall_impl; [|exact Hs]. intros row [Hr Hp]. simpl.
  split; [by rewrite length_map|]. apply Forall_fmap.
  eapply List.Forall_impl; [|exact Hp]. intros p Hlen. by apply Hk.
Qed.

Lemma chan_max_is_Some {A} (k : A -> Q) (a : list (list A)) (i j : nat) (p : A) :
  pixel a i j = Some p -> is_Some (max_list (concat (map2 k a))).
Proof.
  intros Hp. apply max_list_is_Some. intros E.
  assert (Hin : k p ∈ concat (map2 k a)).
  { apply elem_of_concat_map2. by exists i, j, p. }
  rewrite E in Hin. by apply elem_of_nil in Hin.
Qed.

(** Appending to the store keeps what was there. *)
Lemma lookup_alloc {A} (h : list A) (l : nat) (x y : A) :
  h !! l = Some x -> (h ++ [y]) !! l = Some x.
Proof. intros H. by apply lookup_app_l_Some. Qed.

(** ** mask_max_pixel_normalize *)

Lemma chan_max_channel_max (a : ndarray) (H W C c : nat) (m : Q) :
  shape3 a H W C -> (c < C)%nat ->
  chan_max (map2 (chan c) a) = Some m -> channel_max a c m.
Proof.
  intros Hs Hc Hm. apply max_list_spec in Hm as [Hin Hall]. split.
  - apply elem_of_concat_map2 in Hin as (i & j & p & Hp & ->).
    exists i, j, p. split; [done|]. apply chan_lookup.
    rewrite (pixel_Forall _ _ _ _ _ (shape3_pixels _ _ _ _ Hs) Hp). done.
  - intros i j p x Hp Hx. rewrite List.Forall_forall in Hall. apply Hall.
    apply list_elem_of_In, elem_of_concat_map2. exists i, j, p. split; [done|].
    unfold chan. by rewrite Hx.
Qed.

Lemma mask_max_pixel_normalize_run (h : heap) (img : loc) (a : ndarray)
    (H W : nat) (threshold mR mG mB : Q) :
  h !! img = Some a -> shape3 a H W 3 ->
  chan_max (map2 (chan 0) a) = Some mR ->
  chan_max (map2 (chan 1) a) = Some mG ->
  chan_max (map2 (chan 2) a) = Some mB ->
  mask_max_pixel_normalize img threshold h =
    (Ok (length h), h ++ [map2 (normalize_pixel mR mG mB threshold) a]).
Proof.
  intros Ha Hs HR HG HB. unfold mask_max_pixel_normalize.
  unfold bind at 1. rewrite (load_ok _ _ _ Ha).
  rewrite !(slice_ok _ _ _ _ _ Hs) by lia. simpl.
  rewrite HR. simpl. rewrite HG. simpl. rewrite HB. simpl.
  unfold normalize_channel. rewrite !map2_map2, !zip2_map2.
  unfold bind, pure_of, alloc. done.
Qed.

Lemma mask_max_pixel_normalize_frame (h : heap) (img : loc) (threshold : Q) :
  forall l x, h !! l = Some x ->
    (mask_max_pixel_normalize img threshold h).2 !! l = Some x.
Proof.
  intros l x Hl. unfold mask_max_pixel_normalize, bind, load, pure_of, alloc.
  destruct (h !! img) as [a|]; simpl; [|done].
  match goal with |- context [match ?r with Ok _ => _ | Raise _ => _ end] =>
    destruct r end; simpl; [|done].
  by apply lookup_alloc.
Qed.

Lemma shape3_first_pixel (a : ndarray) (H W C : nat) :
  shape3 a H W C -> (0 < H)%nat -> (0 < W)%nat -> exists p, pixel a 0 0 = Some p.
Proof.
  intros [HH Hs] H0 W0. destruct a as [|row a]; simpl in HH; [lia|].
  apply Forall_cons_1 in Hs as [[Hr _] _].
  destruct row as [|p row]; simpl in Hr; [lia|]. by exists p.
Qed.

Lemma shape3_zero_size {A} (k : list Q -> A) (a : ndarray) (H W C : nat) :
  shape3 a H W C -> H = 0%nat \/ W = 0%nat -> concat (map2 k a) = [].
Proof.
  intros [HH Hs] [->| ->].
  - by destruct a.
  - clear HH. unfold map2.
    induction Hs as [|row a [Hr _] _ IH]; simpl; [done|].
    destruct row; simpl in Hr; [|lia]. done.
Qed.




(** The cut is the double product, not the exact one: with the doubles
    written 0.7 and 0.8 it lies below the double written 0.56, which the
    method therefore sets to 1, although 7/10 times 8/10 is 56/100; it is
    within rounding of 56/100. *)
Lemma normalize_cut_is_rounded :
  let cut := b64_mul (b64_div (b64_of_Z 7) (b64_of_Z 10))
                     (b64_div (b64_of_Z 8) (b64_of_Z 10)) in
  SFltb cut (b64_div (b64_of_Z 56) (b64_of_Z 100)) = true /\
  (7 # 10) * (8 # 10) == 56 # 100 /\
  within_rounding ((7 # 10) * (8 # 10)) (b64_to_Q cut).
Proof.
  split; [by vm_compute|]. split; [by vm_compute|].
  unfold within_rounding. apply Qle_bool_iff. by vm_compute.
Qed.

(** ** mask_argmax *)

Lemma argmax_from_spec (l pre : list Q) (best : Q) (besti : nat) :
  pre !! besti = Some best -> first_max pre besti ->
  let k := argmax_from best besti (length pre) l in
  (k < length (pre ++ l))%nat /\ first_max (pre ++ l) k.
Proof.
  revert pre best besti. induction l as [|x l IH]; intros pre best besti Hb Hfm; simpl.
  - rewrite app_nil_r. split; [by eapply lookup_lt_Some | done].
  - destruct Hfm as (m & Hm & Hmax & Hbefore).
    assert (m = best) as -> by congruence.
    replace (pre ++ x :: l) with ((pre ++ [x]) ++ l) by (by rewrite <- app_assoc).
    replace (S (length pre)) with (length (pre ++ [x]))
      by (rewrite length_app; simpl; lia).
    destruct (Qltb best x) eqn:E.
    + apply Qltb_lt in E.
      assert (Hx : (pre ++ [x]) !! length pre = Some x).
      { rewrite lookup_app_r by lia. by rewrite Nat.sub_diag. }
      assert (Hfm' : first_max (pre ++ [x]) (length pre)).
      { exists x. split; [done|]. split.
        - intros c y Hy. apply lookup_app_Some in Hy as [Hy|[_ Hy]].
          + specialize (Hmax _ _ Hy). lra.
          + apply list_lookup_singleton_Some in Hy as [_ <-]. lra.
        - intros c y Hc Hy. rewrite lookup_app_l in Hy by done.
          specialize (Hmax _ _ Hy). lra. }
      exact (IH (pre ++ [x]) x (length pre) Hx Hfm').
    + apply Qltb_ge in E.
      assert (Hb' : (pre ++ [x]) !! besti = Some best) by (by apply lookup_app_l_Some).
      assert (Hfm' : first_max (pre ++ [x]) besti).
      { exists best. split; [done|]. split.
        - intros c y Hy. apply lookup_app_Some in Hy as [Hy|[_ Hy]].
          + by eapply Hmax.
          + by apply list_lookup_singleton_Some in Hy as [_ <-].
        - intros c y Hc Hy.
          assert (c < length pre)%nat.
          { apply lookup_lt_Some in Hb. lia. }
          rewrite lookup_app_l in Hy by done. by eapply Hbefore. }
      exact (IH (pre ++ [x]) best besti Hb' Hfm').
Qed.

Lemma argmax_spec (p : list Q) :
  p <> [] -> exists k, argmax p = Some k /\ (k < length p)%nat /\ first_max p k.
Proof.
  destruct p as [|x l]; [done|]. intros _. simpl. eexists; split; [reflexivity|].
  apply (argmax_from_spec l [x] x 0%nat); [done|].
  exists x. split; [done|]. split.
  - intros c y Hy. apply list_lookup_singleton_Some in Hy as [_ <-]. lra.
  - intros c y Hc. lia.
Qed.

Lemma chan_zeros (k : nat) (p : list Q) : chan k (map (fun _ => 0) p) = 0.
Proof.
  unfold chan. change (map (fun _ => 0) p) with ((fun _ : Q => 0) <$> p).
  rewrite list_lookup_fmap. by destruct (p !! k).
Qed.

Lemma mask_argmax_run (h : heap) (predicted_mask : loc) (a : ndarray) (H W : nat) :
  h !! predicted_mask = Some a -> shape3 a H W 4 ->
  mask_argmax predicted_mask h =
    (Ok (length h), h ++ [map2 (fun p => one_hot 4 (argmax_index p)) a]).
Proof.
  intros Ha Hs. unfold mask_argmax. unfold bind at 1. rewrite (load_ok _ _ _ Ha).
  assert (Hidx : argmax_axis2 a = Ok (map2 argmax_index a)).
  { unfold argmax_axis2. rewrite (mapM2_Some _ argmax_index); [done|].
    eapply List.Forall_impl; [|exact (shape3_pixels _ _ _ _ Hs)]. intros row Hrow.
    eapply List.Forall_impl; [|exact Hrow]. intros p Hp. simpl in Hp.
    destruct (argmax_spec p) as (k & Hk & _); [by destruct p|].
    unfold argmax_index. by rewrite Hk. }
  rewrite Hidx. simpl.
  change (map3 (fun _ => 0) a) with (map2 (map (fun _ : Q => 0)) a).
  assert (Hz : shape3 (map2 (map (fun _ : Q => 0)) a) H W 4).
  { eapply shape3_map2; [exact Hs|]. intros p Hp. by rewrite length_map. }
  rewrite !(slice_ok _ _ _ _ _ Hz) by lia. simpl.
  unfold where_set. repeat (progress rewrite ?map2_map2, ?zip2_map2).
  unfold bind, pure_of, alloc. do 3 f_equal.
  pixelwise p. rewrite !chan_zeros. unfold one_hot. simpl.
  by rewrite !(Nat.eqb_sym (argmax_index p)).
Qed.

(** C7.  On a (H, W, 4) score array [mask_argmax] returns a new (H, W, 4)
    array whose pixel is the one-hot vector of the smallest channel index
    attaining that pixel's maximum score: that channel is 1, the other
    three are 0. *)
Theorem mask_argmax_one_hot (h : heap) (predicted_mask : loc) (a : ndarray)
    (H W : nat) :
  h !! predicted_mask = Some a -> shape3 a H W 4 ->
  exists out : ndarray,
    mask_argmax predicted_mask h = (Ok (length h), h ++ [out]) /\
    shape3 out H W 4 /\
    forall i j p, pixel a i j = Some p ->
      exists k, (k < 4)%nat /\ first_max p k /\
        pixel out i j = Some (one_hot 4 k) /\
        forall c, (c < 4)%nat ->
          one_hot 4 k !! c = Some (if decide (c = k) then 1 else 0).
Proof.
  intros Ha Hs. eexists. split; [by eapply mask_argmax_run|]. split.
  - eapply shape3_map2; [exact Hs|]. intros p _. done.
  - intros i j p Hp. rewrite pixel_map2, Hp. simpl.
    assert (Hlen : length p = 4%nat)
      by apply (pixel_Forall _ _ _ _ _ (shape3_pixels _ _ _ _ Hs) Hp).
    destruct (argmax_spec p) as (k & Hk & Hlt & Hfm); [by destruct p|].
    unfold argmax_index. rewrite Hk. simpl.
    exists k. split; [lia|]. split; [done|]. split; [done|].
    intros c Hc. unfold one_hot.
    destruct c as [|[|[|[|c]]]]; [| | | |lia];
      destruct k as [|[|[|[|k]]]]; try lia; done.
Qed.

Lemma mask_argmax_one_hot_witness :
  exists out : ndarray,
    mask_argmax 0%nat [ [[ [1 # 2; 7; 7; 3]; [0; 0; 0; 0] ]] ]
      = (Ok 1%nat, [ [[ [1 # 2; 7; 7; 3]; [0; 0; 0; 0] ]]; out ]) /\
    shape3 out 1 2 4.
Proof.
  assert (Hs : shape3 [[ [1 # 2; 7; 7; 3]; [0; 0; 0; 0] ]] 1 2 4)
    by (split; [reflexivity | repeat constructor]).
  destruct (mask_argmax_one_hot [ [[ [1 # 2; 7; 7; 3]; [0; 0; 0; 0] ]] ] 0%nat
              [[ [1 # 2; 7; 7; 3]; [0; 0; 0; 0] ]] 1 2 eq_refl Hs)
    as (out & Hrun & Hshape & _).
  exists out. split; [exact Hrun | exact Hshape].
Defined.

(** ** one_hot_encode *)

Lemma zip2_map2_r {A B C} (f : B -> A -> C) (k : A -> B) (a : list (list A)) :
  zip2 f (map2 k a) a = map2 (fun p => f (k p) p) a.
Proof.
  rewrite <- (map2_id a) at 2. by rewrite zip2_map2.
Qed.

Lemma map3_map2 {A} (f : Q -> Q) (k : A -> list Q) (a : list (list A)) :
  map3 f (map2 k a) = map2 (fun p => map f (k p)) a.
Proof. apply (map2_map2 (map f) k). Qed.

Lemma encode_class_run (a : ndarray) (H W C : nat) (row : Row) :
  shape3 a H W C -> (3 <= C)%nat ->
  encode_class a row = Ok (map2 (class_value row) a).
Proof.
  intros Hs HC. unfold encode_class.
  rewrite !(slice_ok _ _ _ _ _ Hs) by lia. simpl.
  rewrite !map2_map2, !zip2_map2, zip2_map2_r.
  unfold assign_where.
  rewrite !map3_map2.
  erewrite slice_ok; [by rewrite map2_map2 | | ].
  - eapply shape3_map2; [exact Hs|]. intros p Hp. simpl.
    rewrite !length_map. destruct (_ && _); [by rewrite length_map | exact Hp].
  - lia.
Qed.

Lemma encode_rows_run (a : ndarray) (H W C : nat) (rows pre : list Row) :
  shape3 a H W C -> (3 <= C)%nat ->
  encode_rows a rows
    (map2 (fun p => encode_pixel pre p ++ replicate (length rows) 0) a)
    (length pre)
  = Ok (map2 (encode_pixel (pre ++ rows)) a).
Proof.
  intros Hs HC. revert pre. induction rows as [|row rows IH]; intros pre; simpl.
  - f_equal. pixelwise p. by rewrite !app_nil_r.
  - rewrite (encode_class_run _ _ _ _ _ Hs HC). simpl.
    unfold set_channel. rewrite map2_map2, zip2_map2.
    replace (pre ++ row :: rows) with ((pre ++ [row]) ++ rows)
      by (by rewrite <- app_assoc).
    rewrite <- IH.
    replace (length (pre ++ [row])) with (S (length pre))
      by (rewrite length_app; simpl; lia).
    f_equal. pixelwise p.
    rewrite insert_app_r_alt by (unfold encode_pixel; rewrite length_map; lia).
    unfold encode_pixel at 1 2. rewrite length_map, Nat.sub_diag. simpl.
    unfold encode_pixel. rewrite map_app. simpl. by rewrite <- app_assoc.
Qed.

Lemma one_hot_encode_run (h : heap) (img : loc) (a : ndarray) (H W C : nat)
    (class_map : option (list Row)) :
  h !! img = Some a -> shape3 a H W C -> (3 <= C)%nat ->
  one_hot_encode img class_map h =
    (Ok (length h),
     h ++ [map2 (encode_pixel (default default_class_map class_map)) a]).
Proof.
  intros Ha Hs HC. unfold one_hot_encode.
  unfold bind at 1. rewrite (load_ok _ _ _ Ha).
  rewrite (np_zeros_shape _ _ _ _ _ Hs).
  pose proof (encode_rows_run a H W C (default default_class_map class_map) []
                Hs HC) as Hrun.
  simpl in Hrun. unfold bind, pure_of. rewrite Hrun. done.
Qed.

(** What a pixel contributes to the channel of a class. *)
Lemma class_value_cases (row : Row) (p : list Q) :
  p <> [] ->
  class_value row p =
    if hit row p then 1
    else if Qltb (chan 0 p) 2 then 0
    else if Qeq_bool (chan 0 p) 2 then 1
    else chan 0 p.
Proof.
  intros Hp. destruct p as [|x p]; [done|]. unfold class_value.
  destruct (hit row (x :: p)); simpl; [done|].
  unfold chan. simpl. destruct (Qltb x 2); [done|]. done.
Qed.


Lemma pixel_eq_color01_inv (p : list Q) (row : Row) :
  pixel_eq p (color01 row) ->
  exists x y z, p = [x; y; z] /\
    x == r row / 255 /\ y == g row / 255 /\ z == b row / 255.
Proof.
  unfold pixel_eq, color01. intros Hp.
  apply Forall2_cons_inv_r in Hp as (x & p1 & Hx & Hp & ->).
  apply Forall2_cons_inv_r in Hp as (y & p2 & Hy & Hp & ->).
  apply Forall2_cons_inv_r in Hp as (z & p3 & Hz & Hp & ->).
  apply Forall2_nil_inv_r in Hp as ->. by exists x, y, z.
Qed.

Lemma hit_color01 (p : list Q) (row : Row) :
  pixel_eq p (color01 row) -> hit row p = true.
Proof.
  intros Hp. apply pixel_eq_color01_inv in Hp as (x & y & z & -> & Hx & Hy & Hz).
  unfold hit, chan. simpl.
  apply Qeq_bool_iff in Hx, Hy, Hz. by rewrite Hx, Hy, Hz.
Qed.

Lemma hit_true (p : list Q) (row : Row) :
  hit row p = true ->
  chan 0 p == r row / 255 /\ chan 1 p == g row / 255 /\ chan 2 p == b row / 255.
Proof.
  unfold hit. rewrite !andb_true_iff, !Qeq_bool_iff. tauto.
Qed.

Lemma hit_same_color (p : list Q) (row1 row2 : Row) :
  hit row1 p = true -> hit row2 p = true -> same_color row1 row2.
Proof.
  intros H1 H2. apply hit_true in H1 as (Hr1 & Hg1 & Hb1).
  apply hit_true in H2 as (Hr2 & Hg2 & Hb2).
  rewrite Qdiv_255 in *. unfold same_color. repeat split; lra.
Qed.

Lemma one_hot_lookup (N k c : nat) :
  one_hot N k !! c =
    if decide (c < N)%nat then Some (if Nat.eqb c k then 1 else 0) else None.
Proof.
  unfold one_hot.
  change (map ?f ?l) with (f <$> l). rewrite list_lookup_fmap.
  destruct (decide (c < N)%nat) as [Hc|Hc].
  - by rewrite lookup_seq_lt.
  - by rewrite lookup_seq_ge by lia.
Qed.

Lemma indicator_sum_after (k s n : nat) :
  (k < s)%nat ->
  channel_sum (map (fun c => if Nat.eqb c k then 1 else 0) (seq s n)) == 0.
Proof.
  revert s. induction n as [|n IH]; intros s Hk; simpl; [reflexivity|].
  rewrite IH by lia.
  destruct (Nat.eqb_spec s k); [lia|]. reflexivity.
Qed.

Lemma indicator_sum_inside (k s n : nat) :
  (s <= k < s + n)%nat ->
  channel_sum (map (fun c => if Nat.eqb c k then 1 else 0) (seq s n)) == 1.
Proof.
  revert s. induction n as [|n IH]; intros s Hk; simpl; [lia|].
  destruct (Nat.eqb_spec s k) as [->|Hne].
  - rewrite indicator_sum_after by lia. reflexivity.
  - rewrite IH by lia. reflexivity.
Qed.

(** A one-hot vector sums to 1. *)
Lemma channel_sum_one_hot (N k : nat) :
  (k < N)%nat -> channel_sum (one_hot N k) == 1.
Proof. intros Hk. apply indicator_sum_inside. lia. Qed.

(** A pixel of the colour of row [k], in a map of distinct colours whose
    red components stay below the marker value 2 once divided by 255, is
    encoded as the one-hot vector of [k]. *)
Lemma encode_pixel_one_hot (cm : list Row) (p : list Q) (k : nat) (row : Row) :
  distinct_colors cm -> Forall (fun row' => r row' < 510) cm ->
  cm !! k = Some row -> pixel_eq p (color01 row) ->
  encode_pixel cm p = one_hot (length cm) k.
Proof.
  intros Hd Hr Hk Hp. pose proof (hit_color01 _ _ Hp) as Hhit.
  assert (Hne : p <> []).
  { apply pixel_eq_color01_inv in Hp as (? & ? & ? & -> & _). done. }
  assert (Hsmall : Qltb (chan 0 p) 2 = true).
  { apply Qltb_lt. apply hit_true in Hhit as (Hx & _).
    pose proof (Forall_lookup_1 _ _ _ _ Hr Hk) as Hlt. simpl in Hlt.
    rewrite Qdiv_255 in Hx. lra. }
  apply list_eq. intros c. rewrite one_hot_lookup. unfold encode_pixel.
  change (map ?f ?l) with (f <$> l). rewrite list_lookup_fmap.
  destruct (cm !! c) as [row'|] eqn:Hc; simpl.
  - rewrite decide_True by (by eapply lookup_lt_Some). f_equal.
    rewrite (class_value_cases _ _ Hne).
    destruct (Nat.eqb_spec c k) as [->|Hck].
    + assert (row' = row) as -> by congruence. by rewrite Hhit.
    + destruct (hit row' p) eqn:Hhit'.
      * exfalso. apply (Hd c k row' row Hc Hk Hck). by eapply hit_same_color.
      * by rewrite Hsmall.
  - rewrite decide_False; [done|]. apply lookup_ge_None in Hc. lia.
Qed.

(** On the [0,1] scale (red channel below the marker value 2) a pixel is
    encoded with 1 in the channels of the classes it matches and 0 in the
    others. *)
Lemma encode_pixel_unit_scale (cm : list Row) (p : list Q) :
  p <> [] -> chan 0 p < 2 ->
  encode_pixel cm p = map (fun row => if hit row p then 1 else 0) cm.
Proof.
  intros Hne Hlt. apply Qltb_lt in Hlt. unfold encode_pixel.
  apply map_ext. intros row. rewrite (class_value_cases _ _ Hne), Hlt.
  by destruct (hit row p).
Qed.

Lemma hit_pixel_eq (row : Row) (p : list Q) :
  length p = 3%nat -> hit row p = true -> pixel_eq p (color01 row).
Proof.
  intros Hlen Hhit. apply hit_true in Hhit as (Hr & Hg & Hb).
  destruct p as [|x [|y [|z [|]]]]; try done.
  unfold chan in *. simpl in *. by repeat constructor.
Qed.

(** On a mask of the [0,1] scale the frame holds only 0 and 1, and a pixel
    that matches no class is zero in every channel. *)
Lemma one_hot_encode_unit_scale (h : heap) (img : loc) (a : ndarray)
    (H W : nat) (class_map : option (list Row)) :
  let cm := default default_class_map class_map in
  h !! img = Some a -> shape3 a H W 3 ->
  (forall i j p, pixel a i j = Some p -> chan 0 p < 2) ->
  exists out : ndarray,
    one_hot_encode img class_map h = (Ok (length h), h ++ [out]) /\
    all3 (fun x => x = 0 \/ x = 1) out /\
    forall i j p, pixel a i j = Some p ->
      (forall row, row ∈ cm -> ~ pixel_eq p (color01 row)) ->
      pixel out i j = Some (replicate (length cm) 0).
Proof.
  intros cm Ha Hs Hunit. eexists.
  split; [by eapply one_hot_encode_run|]. fold cm.
  assert (Hpx : forall i j p, pixel a i j = Some p ->
            length p = 3%nat /\
            encode_pixel cm p = map (fun row => if hit row p then 1 else 0) cm).
  { intros i j p Hp.
    pose proof (pixel_Forall _ _ _ _ _ (shape3_pixels _ _ _ _ Hs) Hp) as Hlen.
    simpl in Hlen. split; [done|].
    apply encode_pixel_unit_scale; [by destruct p | by eapply Hunit]. }
  split.
  - unfold all3, map2. apply Forall_fmap.
    eapply List.Forall_impl;
      [|apply (pixel_all (fun p => exists i j, pixel a i j = Some p))].
    + intros row Hrow. apply Forall_fmap.
      eapply List.Forall_impl; [|exact Hrow]. intros p (i & j & Hp).
      change (Forall (fun x => x = 0 \/ x = 1) (encode_pixel cm p)).
      destruct (Hpx _ _ _ Hp) as [_ ->].
      apply Forall_fmap, List.Forall_forall. intros row' _. simpl.
      destruct (hit row' p); [by right | by left].
    + intros i j p Hp. by exists i, j.
  - intros i j p Hp Hnone. rewrite pixel_map2, Hp. simpl. f_equal.
    destruct (Hpx _ _ _ Hp) as [Hlen ->].
    rewrite replicate_length_map. apply Forall_fmap_ext_1, Forall_forall.
    intros row Hin. destruct (hit row p) eqn:Hhit; [|done].
    exfalso. apply (Hnone row); [by apply list_elem_of_In | by apply hit_pixel_eq].
Qed.

Lemma distinct_colors_default : distinct_colors default_class_map.
Proof.
  intros i j row1 row2 Hi Hj Hij (Hr & Hg & Hb).
  destruct i as [|[|[|[|i]]]]; simpl in Hi; try done;
    destruct j as [|[|[|[|j]]]]; simpl in Hj; try done;
    injection Hi as <-; injection Hj as <-; simpl in *;
    first [ by apply Hij | by vm_compute in Hr | by vm_compute in Hg
          | by vm_compute in Hb ].
Qed.

Lemma rgb_color_below_marker (cm : list Row) :
  Forall rgb_color cm -> Forall (fun row => r row < 510) cm.
Proof.
  apply List.Forall_impl. intros row ((_ & Hr) & _). lra.
Qed.

(** C2.  For a class map of N rows of pairwise distinct (r, g, b) colours,
    each component on the 8-bit scale, and a mask in which every pixel
    equals (r/255, g/255, b/255) for some row, every pixel of the output of
    [one_hot_encode] is a one-hot vector: exactly one channel is 1, the
    others are 0, and the channel sum is 1. *)
Theorem one_hot_encode_channel_sum (h : heap) (img : loc) (a : ndarray)
    (H W : nat) (cm : list Row) :
  h !! img = Some a -> shape3 a H W 3 ->
  distinct_colors cm ->
  Forall rgb_color cm ->
  (forall i j p, pixel a i j = Some p ->
     exists row, row ∈ cm /\ pixel_eq p (color01 row)) ->
  exists out : ndarray,
    one_hot_encode img (Some cm) h = (Ok (length h), h ++ [out]) /\
    shape3 out H W (length cm) /\
    forall i j q, pixel out i j = Some q ->
      channel_sum q == 1 /\
      exists k, (k < length cm)%nat /\ q = one_hot (length cm) k.
Proof.
  intros Ha Hs Hd Hr Hcanon. apply rgb_color_below_marker in Hr. eexists.
  split; [by eapply one_hot_encode_run|]. split.
  - eapply shape3_map2; [exact Hs|]. intros p _.
    unfold encode_pixel. by rewrite length_map.
  - intros i j q. rewrite pixel_map2.
    destruct (pixel a i j) as [p|] eqn:Hp; simpl; [|done]. intros [= <-].
    destruct (Hcanon _ _ _ Hp) as (row & Hin & Heq).
    apply list_elem_of_lookup in Hin as [k Hk].
    assert (Hlt : (k < length cm)%nat) by (by eapply lookup_lt_Some).
    rewrite (encode_pixel_one_hot cm p k row Hd Hr Hk Heq).
    split; [by apply channel_sum_one_hot|]. by exists k.
Qed.

Lemma one_hot_encode_channel_sum_witness :
  exists out : ndarray,
    one_hot_encode 0%nat (Some default_class_map) [ [[ [1; 0; 0]; [0; 0; 1] ]] ]
      = (Ok 1%nat, [ [[ [1; 0; 0]; [0; 0; 1] ]]; out ]) /\
    shape3 out 1 2 4.
Proof.
  assert (Hs : shape3 [[ [1; 0; 0]; [0; 0; 1] ]] 1 2 3)
    by (split; [reflexivity | repeat constructor]).
  assert (Hr : Forall rgb_color default_class_map)
    by (repeat constructor; simpl; lra).
  assert (Hcanon : forall i j p,
            pixel [[ [1; 0; 0]; [0; 0; 1] ]] i j = Some p ->
            exists row, row ∈ default_class_map /\ pixel_eq p (color01 row)).
  { intros [|i] j p Hp; [|done].
    destruct j as [|[|j]]; [| |done]; injection Hp as <-.
    - exists {| name := "Sky"; r := 255; g := 0; b := 0 |}.
      split; [by left | by repeat constructor].
    - exists {| name := "Big Rocks"; r := 0; g := 0; b := 255 |}.
      split; [right; by left | by repeat constructor]. }
  destruct (one_hot_encode_channel_sum [ [[ [1; 0; 0]; [0; 0; 1] ]] ] 0%nat
              [[ [1; 0; 0]; [0; 0; 1] ]] 1 2 default_class_map
              eq_refl Hs distinct_colors_default Hr Hcanon)
    as (out & Hrun & Hshape & _).
  exists out. split; [exact Hrun | exact Hshape].
Defined.

(** The 8-bit scale of the colours is needed.  The value 2 with which the
    method marks a matched pixel is also 510/255: with the rows (510, 0, 0)
    and (0, 0, 0), the pixel (2, 0, 0) is encoded as (1, 1). *)
Lemma one_hot_encode_marker_colour :
  ~ (forall (h : heap) (img : loc) (a : ndarray) (H W : nat) (cm : list Row),
       h !! img = Some a -> shape3 a H W 3 ->
       distinct_colors cm ->
       (forall i j p, pixel a i j = Some p ->
          exists row, row ∈ cm /\ pixel_eq p (color01 row)) ->
       exists out : ndarray,
         one_hot_encode img (Some cm) h = (Ok (length h), h ++ [out]) /\
         shape3 out H W (length cm) /\
         forall i j q, pixel out i j = Some q ->
           channel_sum q == 1 /\
           exists k, (k < length cm)%nat /\ q = one_hot (length cm) k).
Proof.
  intros Hclaim.
  pose (wide := {| name := "Wide"; r := 510; g := 0; b := 0 |}).
  pose (dark := {| name := "Dark"; r := 0; g := 0; b := 0 |}).
  destruct (Hclaim [ [[ [2; 0; 0] ]] ] 0%nat [[ [2; 0; 0] ]] 1%nat 1%nat
              [wide; dark]) as (out & Hrun & _ & Hsum).
  - done.
  - split; [reflexivity | repeat constructor].
  - intros i j row1 row2 Hi Hj Hij (Hr & _).
    destruct i as [|[|i]]; simpl in Hi; try done;
      destruct j as [|[|j]]; simpl in Hj; try done;
      injection Hi as <-; injection Hj as <-;
      first [ by apply Hij | by vm_compute in Hr ].
  - intros [|i] [|j] p Hp; try done. injection Hp as <-.
    exists wide. split; [by left|]. by repeat constructor.
  - vm_compute in Hrun. injection Hrun as <-.
    destruct (Hsum 0%nat 0%nat [1; 1] eq_refl) as [Hone _].
    by vm_compute in Hone.
Qed.

(** C3.  The pixel (2, 0, 0) equals none of the colours of the default map
    divided by 255, yet [one_hot_encode] gives it 1 in every class channel.
    Only values below the marker 2 are zeroed; a red value of 2 is taken
    for the marker itself. *)
Theorem one_hot_encode_unmatched_pixel :
  (forall row, row ∈ default_class_map -> ~ pixel_eq [2; 0; 0] (color01 row)) /\
  one_hot_encode 0%nat None [ [[ [2; 0; 0] ]] ]
    = (Ok 1%nat, [ [[ [2; 0; 0] ]]; [[ [1; 1; 1; 1] ]] ]).
Proof.
  split; [|reflexivity].
  intros row Hin Hp. apply hit_color01 in Hp.
  repeat (apply elem_of_cons in Hin as [->|Hin]); try by vm_compute in Hp.
  by apply elem_of_nil in Hin.
Qed.

(** C4.  On a mask of the 0-255 scale the output of [one_hot_encode] has
    elements other than 0 and 1: the unmatched pixel (200, 0, 0) keeps its
    red value 200 in every class channel, here and in the frame
    [preprocessor_masks] builds from the raw mask. *)
Theorem one_hot_encode_leaks_intensity :
  one_hot_encode 0%nat None [ [[ [200; 0; 0]; [1; 0; 0] ]] ]
    = (Ok 1%nat,
       [ [[ [200; 0; 0]; [1; 0; 0] ]];
         [[ [200; 200; 200; 200]; [1; 0; 0; 0] ]] ]) /\
  ~ all3 (fun x => x = 0 \/ x = 1) [[ [200; 200; 200; 200]; [1; 0; 0; 0] ]] /\
  (preprocessor_masks 0%nat 128 None [ [[ [200; 0; 0]; [255; 0; 0] ]] ]).2 !! 2%nat
    = Some [[ [200; 200; 200; 200]; [1; 0; 0; 0] ]].
Proof.
  split; [reflexivity|]. split; [|reflexivity].
  intros Hall. apply Forall_cons_1 in Hall as [Hrow _].
  apply Forall_cons_1 in Hrow as [Hp _].
  apply Forall_cons_1 in Hp as [[Hx|Hx] _]; discriminate Hx.
Qed.

(** ** reverse_one_hot_encode *)

Lemma temp_pixel_length (row : Row) (k : nat) (q : list Q) :
  length (temp_pixel row k q) = 3%nat.
Proof.
  unfold temp_pixel.
  destruct (Qltb 0 (r row)), (Qltb 0 (g row)), (Qltb 0 (b row)); reflexivity.
Qed.

Lemma decode_class_run (img : ndarray) (H W C : nat) (row : Row) (k : nat) :
  shape3 img H W C -> (k < C)%nat ->
  decode_class img row k =
    Ok (map2 (fun q => chan 0 (temp_pixel row k q)) img,
        map2 (fun q => chan 1 (temp_pixel row k q)) img,
        map2 (fun q => chan 2 (temp_pixel row k q)) img).
Proof.
  intros Hs Hk. unfold decode_class.
  rewrite (slice_ok _ _ _ _ _ Hs Hk). simpl.
  rewrite (np_zeros_shape _ _ _ _ 3 Hs).
  assert (Htemp :
    (if Qltb 0 (b row)
     then set_channel
            (if Qltb 0 (g row)
             then set_channel
                    (if Qltb 0 (r row)
                     then set_channel (map2 (fun _ => replicate 3 0) img) 0
                            (map2 (chan k) img)
                     else map2 (fun _ => replicate 3 0) img) 1
                    (map2 (chan k) img)
             else if Qltb 0 (r row)
                  then set_channel (map2 (fun _ => replicate 3 0) img) 0
                         (map2 (chan k) img)
                  else map2 (fun _ => replicate 3 0) img) 2
            (map2 (chan k) img)
     else if Qltb 0 (g row)
          then set_channel
                 (if Qltb 0 (r row)
                  then set_channel (map2 (fun _ => replicate 3 0) img) 0
                         (map2 (chan k) img)
                  else map2 (fun _ => replicate 3 0) img) 1
                 (map2 (chan k) img)
          else if Qltb 0 (r row)
               then set_channel (map2 (fun _ => replicate 3 0) img) 0
                      (map2 (chan k) img)
               else map2 (fun _ => replicate 3 0) img)
    = map2 (temp_pixel row k) img).
  { unfold temp_pixel, set_channel.
    destruct (Qltb 0 (r row)), (Qltb 0 (g row)), (Qltb 0 (b row));
      repeat (progress rewrite ?zip2_map2); reflexivity. }
  rewrite Htemp.
  assert (Hshape : shape3 (map2 (temp_pixel row k) img) H W 3).
  { eapply shape3_map2; [exact Hs|]. intros q _. apply temp_pixel_length. }
  rewrite !(slice_ok _ _ _ _ _ Hshape) by lia. simpl.
  by rewrite !map2_map2.
Qed.

Lemma decode_rows_run (img : ndarray) (H W C : nat) (rows : list Row) :
  shape3 img H W C ->
  forall (k : nat) (fr fg fb : list (list Q -> Q)),
    (k + length rows <= C)%nat ->
    decode_rows img rows k
      (map (fun f => map2 f img) fr) (map (fun f => map2 f img) fg)
      (map (fun f => map2 f img) fb)
    = Ok (map (fun f => map2 f img) (fr ++ plane_fns 0 k rows),
          map (fun f => map2 f img) (fg ++ plane_fns 1 k rows),
          map (fun f => map2 f img) (fb ++ plane_fns 2 k rows)).
Proof.
  intros Hs. induction rows as [|row rows IH]; intros k fr fg fb Hk; simpl.
  - by rewrite !app_nil_r.
  - simpl in Hk. rewrite (decode_class_run _ _ _ _ row k Hs) by lia. simpl.
    pose proof (IH (S k)
                  (fr ++ [fun q => chan 0 (temp_pixel row k q)])
                  (fg ++ [fun q => chan 1 (temp_pixel row k q)])
                  (fb ++ [fun q => chan 2 (temp_pixel row k q)])) as IH'.
    rewrite !map_app in IH'. simpl in IH'. rewrite IH' by lia.
    by rewrite <- !app_assoc, !map_app.
Qed.

Lemma max_axis2_run (gs : list (list Q -> Q)) (img : ndarray) :
  gs <> [] ->
  max_axis2 (map2 (fun q => map (fun f => f q) gs) img)
  = Ok (map2 (fun q => max_of (map (fun f => f q) gs)) img).
Proof.
  intros Hgs. unfold max_axis2.
  rewrite (mapM2_Some _ max_of); [simpl; by rewrite map2_map2|].
  unfold map2. apply Forall_fmap, List.Forall_forall. intros row _.
  apply Forall_fmap, List.Forall_forall. intros q _. simpl.
  unfold max_of. destruct gs; [done|]. done.
Qed.

Lemma plane_fns_nonempty (c k : nat) (rows : list Row) :
  rows <> [] -> plane_fns c k rows <> [].
Proof. by destruct rows. Qed.

Lemma shape3_map3 (f : Q -> Q) (a : ndarray) (H W C : nat) :
  shape3 a H W C -> shape3 (map3 f a) H W C.
Proof.
  intros Hs. apply (shape3_map2 (map f) a H W C C Hs).
  intros p Hp. by rewrite length_map.
Qed.

(** The decoding that follows [binarize], on the array it left. *)
Lemma decode_run (img : ndarray) (H W C : nat) (cm : list Row) :
  shape3 img H W C -> cm <> [] -> (length cm <= C)%nat ->
  (try stacks := decode_rows img cm 0 [] [] [] in
   try red_stack := dstack (stacks.1.1) in
   try green_stack := dstack (stacks.1.2) in
   try blue_stack := dstack (stacks.2) in
   let rgb_img := np_zeros (shape0 img) (shape1 img) 3 in
   try red := max_axis2 red_stack in
   let rgb_img := set_channel rgb_img 0 red in
   try green := max_axis2 green_stack in
   let rgb_img := set_channel rgb_img 1 green in
   try blue := max_axis2 blue_stack in
   let rgb_img := set_channel rgb_img 2 blue in
   Ok rgb_img)
  = Ok (map2 (decode_pixel cm) img).
Proof.
  intros Hs Hcm Hlen.
  pose proof (decode_rows_run img H W C cm Hs 0 [] [] []) as Hrows.
  simpl in Hrows. rewrite Hrows by lia. simpl.
  rewrite !dstack_map2 by (by apply plane_fns_nonempty). simpl.
  rewrite !max_axis2_run by (by apply plane_fns_nonempty). simpl.
  rewrite (np_zeros_shape _ _ _ _ 3 Hs).
  unfold set_channel. by rewrite !zip2_map2.
Qed.

Lemma reverse_one_hot_encode_run (h : heap) (img : loc) (a : ndarray)
    (H W C : nat) (m : Q) (class_map : option (list Row)) :
  let cm := default default_class_map class_map in
  let snapped :=
    map3 (two_level (if Qltb 1 m then 128 else 128 / 255)) a in
  h !! img = Some a -> np_max a = Some m -> shape3 a H W C ->
  cm <> [] -> (length cm <= C)%nat ->
  reverse_one_hot_encode img class_map h =
    (Ok (length h), <[img := snapped]> h ++ [map2 (decode_pixel cm) snapped]).
Proof.
  intros cm snapped Ha Hm Hs Hcm Hlen. unfold reverse_one_hot_encode.
  unfold bind at 1. rewrite (binarize_run _ _ _ _ _ Ha Hm).
  fold snapped. unfold bind at 1.
  rewrite (load_ok _ _ snapped)
    by (apply list_lookup_insert_eq; by eapply lookup_lt_Some).
  fold cm. unfold bind, pure_of.
  pose proof (decode_run snapped H W C cm (shape3_map3 _ _ _ _ _ Hs) Hcm Hlen)
    as Hdec.
  cbv zeta in Hdec. rewrite Hdec.
  unfold alloc. by rewrite length_insert.
Qed.

(** After [binarize] the rest of [reverse_one_hot_encode] only allocates. *)
Lemma reverse_one_hot_encode_store (h : heap) (img : loc) (a : ndarray)
    (class_map : option (list Row)) :
  h !! img = Some a ->
  (reverse_one_hot_encode img class_map h).2 !! img
  = (binarize img 128 h).2 !! img.
Proof.
  intros Ha. unfold reverse_one_hot_encode. unfold bind at 1.
  destruct (np_max a) as [m|] eqn:Hm.
  - rewrite (binarize_run _ _ _ _ _ Ha Hm). simpl.
    set (snapped := map3 _ a).
    assert (Hl : <[img := snapped]> h !! img = Some snapped)
      by (apply list_lookup_insert_eq; by eapply lookup_lt_Some).
    unfold bind at 1. rewrite (load_ok _ _ _ Hl).
    unfold bind, pure_of, alloc.
    match goal with |- context [match ?x with Ok _ => _ | Raise _ => _ end] =>
      destruct x end; simpl; [|done].
    rewrite Hl. by apply lookup_alloc.
  - by rewrite (binarize_empty _ _ _ _ Ha Hm).
Qed.

(** C10.  [reverse_one_hot_encode] leaves the caller's array as the
    in-place [binarize] with the default threshold 128 left it, whatever
    the class map and whether or not the decoding then succeeds: every
    element has been snapped to 0 or 255, so a caller's array with any
    other value in it has been changed. *)
Theorem reverse_one_hot_encode_mutates_input (h : heap) (img : loc)
    (a : ndarray) (class_map : option (list Row)) :
  h !! img = Some a ->
  exists snapped : ndarray,
    (reverse_one_hot_encode img class_map h).2 !! img = Some snapped /\
    (binarize img 128 h).2 !! img = Some snapped /\
    all3 (fun x => x = 0 \/ x = 255) snapped /\
    (forall m, np_max a = Some m ->
       snapped =
         map3 (fun x =>
                 if Qltb (if Qltb 1 m then 128 else 128 / 255) x then 255 else 0)
           a) /\
    (~ all3 (fun x => x = 0 \/ x = 255) a -> snapped <> a).
Proof.
  intros Ha. rewrite (reverse_one_hot_encode_store _ _ _ _ Ha).
  assert (Hlt : (img < length h)%nat) by (by eapply lookup_lt_Some).
  destruct (np_max a) as [m|] eqn:Hm.
  - rewrite (binarize_run _ _ _ _ _ Ha Hm). simpl.
    set (cut := if Qltb 1 m then 128 else 128 / 255).
    assert (Hcut : cut < 255) by (unfold cut; by destruct (Qltb 1 m)).
    exists (map3 (two_level cut) a).
    split; [by apply list_lookup_insert_eq|].
    split; [by apply list_lookup_insert_eq|]. split; [|split].
    + apply all3_map3, all3_true. intros x. apply two_level_range.
    + intros m' [= <-]. apply map3_ext_all3, all3_true.
      intros x. by apply two_level_below.
    + intros Hna Heq. apply Hna. rewrite <- Heq.
      apply all3_map3, all3_true. intros x. apply two_level_range.
  - rewrite (binarize_empty _ _ _ _ Ha Hm). simpl. exists a.
    split; [done|]. split; [done|]. split; [by apply np_max_None_all3|].
    split; [done|]. intros Hna _. by apply Hna, np_max_None_all3.
Qed.

Lemma reverse_one_hot_encode_mutates_input_witness :
  (reverse_one_hot_encode 0%nat None [ [[ [1; 0; 0; 0]; [0; 0; 1; 0] ]] ]).2 !! 0%nat
  = Some [[ [255; 0; 0; 0]; [0; 0; 255; 0] ]].
Proof.
  destruct (reverse_one_hot_encode_mutates_input
              [ [[ [1; 0; 0; 0]; [0; 0; 1; 0] ]] ] 0%nat
              [[ [1; 0; 0; 0]; [0; 0; 1; 0] ]] None eq_refl)
    as (snapped & Hrev & _ & _ & Hval & _).
  rewrite Hrev. f_equal. apply (Hval 1). reflexivity.
Defined.

(** ** The round trip *)

Lemma np_max_is_Some (f : ndarray) (i j : nat) (q : list Q) :
  pixel f i j = Some q -> q <> [] -> is_Some (np_max f).
Proof.
  intros Hq Hne. apply max_list_is_Some. intros E.
  destruct q as [|x q]; [done|].
  assert (Hin : x ∈ concat (concat f)).
  { apply elem_of_concat. exists (x :: q). split; [by left|].
    pose proof (proj2 (elem_of_concat_map2 (fun p => p) f (x :: q))) as Hc.
    rewrite map2_id in Hc. apply Hc. by exists i, j, (x :: q). }
  rewrite E in Hin. by apply elem_of_nil in Hin.
Qed.

Lemma np_max_all3 (P : Q -> Prop) (f : ndarray) (m : Q) :
  np_max f = Some m -> all3 P f -> P m.
Proof.
  intros Hm Hall. apply max_list_spec in Hm as [Hin _].
  apply all3_concat in Hall. rewrite List.Forall_forall in Hall.
  by apply Hall, list_elem_of_In.
Qed.

Lemma one_hot_zero_or_one (N k : nat) :
  Forall (fun x => x = 0 \/ x = 1) (one_hot N k).
Proof.
  unfold one_hot. apply Forall_fmap, List.Forall_forall. intros c _. simpl.
  destruct (Nat.eqb c k); [by right | by left].
Qed.

Section default_map.
Variables (a : ndarray) (H W : nat).
Hypothesis Hs : shape3 a H W 3.
Hypothesis Hcanon :
  forall i j p, pixel a i j = Some p ->
    exists row, row ∈ default_class_map /\ pixel_eq p (color01 row).

Lemma default_encode_pixel (i j : nat) (p : list Q) :
  pixel a i j = Some p ->
  exists k row, default_class_map !! k = Some row /\
    pixel_eq p (color01 row) /\
    encode_pixel default_class_map p = one_hot 4 k.
Proof.
  intros Hp. destruct (Hcanon _ _ _ Hp) as (row & Hin & Heq).
  apply list_elem_of_lookup in Hin as [k Hk]. exists k, row.
  split; [done|]. split; [done|].
  apply (encode_pixel_one_hot default_class_map p k row); try done.
  - apply distinct_colors_default.
  - repeat constructor.
Qed.

Lemma default_frame_zero_or_one :
  all3 (fun x => x = 0 \/ x = 1) (map2 (encode_pixel default_class_map) a).
Proof.
  unfold all3, map2. apply Forall_fmap.
  eapply List.Forall_impl; [|apply (pixel_all (fun p =>
    exists i j, pixel a i j = Some p))].
  - intros row Hrow. simpl. apply Forall_fmap.
    eapply List.Forall_impl; [|exact Hrow]. intros p (i & j & Hp).
    change (Forall (fun x => x = 0 \/ x = 1) (encode_pixel default_class_map p)).
    destruct (default_encode_pixel _ _ _ Hp) as (k & row' & _ & _ & ->).
    apply one_hot_zero_or_one.
  - intros i j p Hp. by exists i, j.
Qed.

(** Encoding, snapping and decoding one pixel of a canonical colour. *)
Lemma default_round_trip_pixel (i j : nat) (p : list Q) :
  pixel a i j = Some p ->
  exists row, row ∈ default_class_map /\ pixel_eq p (color01 row) /\
    decode_pixel default_class_map
      (map (two_level (128 / 255)) (encode_pixel default_class_map p))
    = color255 row.
Proof.
  intros Hp. destruct (default_encode_pixel _ _ _ Hp) as (k & row & Hk & Heq & ->).
  exists row. split; [by eapply list_elem_of_lookup_2|]. split; [done|].
  destruct k as [|[|[|[|k]]]]; simpl in Hk; [| | | |done];
    injection Hk as <-; reflexivity.
Qed.
End default_map.

Lemma color255_scale (p : list Q) (row : Row) :
  pixel_eq p (color01 row) ->
  Forall2 (fun x y => y == 255 * x) p (color255 row).
Proof.
  intros Hp. apply pixel_eq_color01_inv in Hp as (x & y & z & -> & Hx & Hy & Hz).
  rewrite Qdiv_255 in *. unfold color255. repeat constructor; lra.
Qed.

(** C1.  On a mask whose every pixel is a canonical colour of the default
    map on the [0,1] scale, encoding and then decoding returns, at every
    pixel, that pixel's canonical colour on the 0-255 scale, which is 255
    times the pixel. *)
Theorem round_trip_default_map (h : heap) (img : loc) (a : ndarray) (H W : nat) :
  h !! img = Some a -> shape3 a H W 3 ->
  (forall i j p, pixel a i j = Some p ->
     exists row, row ∈ default_class_map /\ pixel_eq p (color01 row)) ->
  forall i j p, pixel a i j = Some p ->
    exists (l : loc) (h' : heap) (rgb : ndarray) (row : Row),
      (let* frame := one_hot_encode img None in
       reverse_one_hot_encode frame None) h = (Ok l, h') /\
      h' !! l = Some rgb /\
      shape3 rgb H W 3 /\
      row ∈ default_class_map /\
      pixel_eq p (color01 row) /\
      pixel rgb i j = Some (color255 row) /\
      Forall2 (fun x y => y == 255 * x) p (color255 row).
Proof.
  intros Ha Hs Hcanon i j p Hp.
  set (frame := map2 (encode_pixel default_class_map) a).
  assert (Hfs : shape3 frame H W 4).
  { eapply shape3_map2; [exact Hs|]. intros q _. reflexivity. }
  assert (Hf01 : all3 (fun x => x = 0 \/ x = 1) frame)
    by (by eapply default_frame_zero_or_one).
  destruct (np_max_is_Some frame i j (encode_pixel default_class_map p))
    as [m Hm]; [unfold frame; by rewrite pixel_map2, Hp | done |].
  assert (Hm1 : Qltb 1 m = false).
  { apply Qltb_ge. destruct (np_max_all3 _ _ _ Hm Hf01) as [-> | ->]; lra. }
  assert (Hl : (h ++ [frame]) !! length h = Some frame)
    by apply list_lookup_middle, eq_refl.
  pose proof (reverse_one_hot_encode_run (h ++ [frame]) (length h) frame
                H W 4 m None Hl Hm Hfs) as Hrev.
  simpl in Hrev. rewrite Hm1 in Hrev.
  specialize (Hrev ltac:(done) ltac:(lia)).
  destruct (default_round_trip_pixel a Hcanon i j p Hp) as (row & Hin & Heq & Hdec).
  eexists _, _, _, row. split.
  { unfold bind. rewrite (one_hot_encode_run _ _ _ _ _ _ None Ha Hs) by lia.
    simpl. fold frame. exact Hrev. }
  split.
  { apply list_lookup_middle. by rewrite length_insert. }
  split.
  { eapply shape3_map2; [by apply shape3_map3|]. intros q _. reflexivity. }
  split; [done|]. split; [done|]. split; [|by apply color255_scale].
  unfold frame. rewrite map3_map2, pixel_map2, pixel_map2, Hp.
  change (Some (decode_pixel default_class_map
                  (map (two_level (128 / 255))
                     (encode_pixel default_class_map p)))
          = Some (color255 row)).
  by rewrite Hdec.
Qed.

Lemma round_trip_default_map_witness :
  exists (l : loc) (h' : heap) (rgb : ndarray),
    (let* frame := one_hot_encode 0%nat None in
     reverse_one_hot_encode frame None) [ [[ [1; 0; 0]; [0; 1; 0] ]] ] = (Ok l, h') /\
    h' !! l = Some rgb /\
    pixel rgb 0 1 = Some [0; 255; 0].
Proof.
  assert (Hs : shape3 [[ [1; 0; 0]; [0; 1; 0] ]] 1 2 3)
    by (split; [reflexivity | repeat constructor]).
  assert (Hcanon : forall i j p,
            pixel [[ [1; 0; 0]; [0; 1; 0] ]] i j = Some p ->
            exists row, row ∈ default_class_map /\ pixel_eq p (color01 row)).
  { intros [|i] j p Hp; [|done].
    destruct j as [|[|j]]; [| |done]; injection Hp as <-.
    - exists {| name := "Sky"; r := 255; g := 0; b := 0 |}.
      split; [by left | by repeat constructor].
    - exists {| name := "Small Rocks"; r := 0; g := 255; b := 0 |}.
      split; [right; right; by left | by repeat constructor]. }
  destruct (round_trip_default_map [ [[ [1; 0; 0]; [0; 1; 0] ]] ] 0%nat
              [[ [1; 0; 0]; [0; 1; 0] ]] 1 2 eq_refl Hs Hcanon
              0%nat 1%nat [0; 1; 0] eq_refl)
    as (l & h' & rgb & row & Hrun & Hl & _ & _ & _ & Hpx & _).
  exists l, h', rgb. split; [exact Hrun|]. split; [exact Hl|].
  vm_compute in Hrun. injection Hrun as <- <-.
  vm_compute in Hl. injection Hl as <-. reflexivity.
Defined.

(** A zero-size mask is encoded, and then [binarize] has no maximum to take. *)
Lemma round_trip_zero_size (h : heap) (img : loc) (a : ndarray) (H W : nat) :
  h !! img = Some a -> shape3 a H W 3 -> H = 0%nat \/ W = 0%nat ->
  (let* frame := one_hot_encode img None in
   reverse_one_hot_encode frame None) h
  = (Raise ValueError, h ++ [map2 (encode_pixel default_class_map) a]).
Proof.
  intros Ha Hs Hz. unfold bind at 1.
  rewrite (one_hot_encode_run _ _ _ _ _ _ None Ha Hs) by lia. simpl.
  unfold reverse_one_hot_encode, bind.
  rewrite (binarize_empty _ _ (map2 (encode_pixel default_class_map) a)).
  - done.
  - apply list_lookup_middle, eq_refl.
  - unfold np_max. by rewrite (shape3_zero_size _ _ _ _ _ Hs Hz).
Qed.

(** ** preprocessor_masks *)

(** C8.  [preprocessor_masks] is [mask_max_pixel_normalize] (with its
    default threshold), then [one_hot_encode] with the class map, then
    [rescale], each on the result of the one before, and an exception of any
    stage ends the call; [b_threshold] has no effect. *)
Theorem preprocessor_masks_stages (h : heap) (image : loc) (b_threshold : Q)
    (class_map : option (list Row)) :
  preprocessor_masks image b_threshold class_map h =
    match mask_max_pixel_normalize image 0.8 h with
    | (Raise e, h1) => (Raise e, h1)
    | (Ok normalized, h1) =>
        match one_hot_encode normalized class_map h1 with
        | (Raise e, h2) => (Raise e, h2)
        | (Ok encoded, h2) => rescale encoded h2
        end
    end /\
  forall b_threshold' : Q,
    preprocessor_masks image b_threshold' class_map h =
    preprocessor_masks image b_threshold class_map h.
Proof.
  split; [|reflexivity].
  unfold preprocessor_masks, bind.
  destruct (mask_max_pixel_normalize image 0.8 h) as [[normalized|e] h1]; [|done].
  by destruct (one_hot_encode normalized class_map h1) as [[encoded|e] h2].
Qed.

(** * Further properties *)

(** ** Maxima under elementwise maps *)

Lemma flat_map3 (f : Q -> Q) (a : ndarray) :
  concat (concat (map3 f a)) = map f (concat (concat a)).
Proof.
  unfold map3. by rewrite !concat_map.
Qed.

Lemma max_list_map (f : Q -> Q) (l : list Q) :
  (forall x y, Qle_bool (f x) (f y) = Qle_bool x y) ->
  max_list (map f l) = f <$> max_list l.
Proof.
  intros Hf. destruct l as [|x l]; simpl; [done|]. f_equal.
  revert x. induction l as [|y l IH]; intros x; simpl; [done|].
  rewrite <- IH. f_equal. unfold qmax. rewrite Hf. by destruct (Qle_bool x y).
Qed.

Lemma np_max_map3 (f : Q -> Q) (a : ndarray) :
  (forall x y, Qle_bool (f x) (f y) = Qle_bool x y) ->
  np_max (map3 f a) = f <$> np_max a.
Proof.
  intros Hf. unfold np_max. rewrite flat_map3. by apply max_list_map.
Qed.

Lemma np_max_map3_is_Some (f : Q -> Q) (a : ndarray) (m : Q) :
  np_max a = Some m -> is_Some (np_max (map3 f a)).
Proof.
  unfold np_max. rewrite flat_map3.
  destruct (concat (concat a)); [done|]. intros _. by eexists.
Qed.

Lemma Qle_bool_scale (x y : Q) :
  Qle_bool (x * (1 / 255)) (y * (1 / 255)) = Qle_bool x y.
Proof.
  change (1 / 255) with (1 # 255).
  destruct (Qle_bool x y) eqn:E.
  - apply Qle_bool_iff in E. apply Qle_bool_iff. lra.
  - apply Qle_bool_gt in E. apply Qle_bool_gt. lra.
Qed.

Lemma np_max_attained (a : ndarray) (m : Q) :
  np_max a = Some m -> m ∈ concat (concat a).
Proof. intros Hm. by apply max_list_spec in Hm as [? _]. Qed.

Lemma all3_impl2 (P1 P2 P3 : Q -> Prop) (a : ndarray) :
  all3 P1 a -> all3 P2 a -> (forall x, P1 x -> P2 x -> P3 x) -> all3 P3 a.
Proof.
  rewrite !all3_concat, !List.Forall_forall. intros H1 H2 HP x Hx.
  apply HP; [by apply H1 | by apply H2].
Qed.

(** ** rescale and preprocessor_images *)

(** X1.  On an image with values between 0 and 255, [preprocessor_images]
    returns an array of the same shape with every value between 0 and 1,
    whatever [b_threshold]; the stored input keeps its values. *)
Theorem preprocessor_images_unit_range (h : heap) (image : loc) (a : ndarray)
    (H W C : nat) (m b_threshold : Q) :
  h !! image = Some a -> np_max a = Some m -> shape3 a H W C ->
  all3 (fun x => 0 <= x <= 255) a ->
  exists (l : loc) (h' : heap) (out : ndarray),
    preprocessor_images image b_threshold h = (Ok l, h') /\
    h' !! l = Some out /\
    h' !! image = Some a /\
    shape3 out H W C /\
    all3 (fun x => 0 <= x <= 1) out.
Proof.
  intros Ha Hm Hs Hrange. unfold preprocessor_images.
  rewrite (rescale_run _ _ _ _ Ha Hm).
  destruct (Qltb 1 m) eqn:E.
  - exists (length h), (h ++ [map3 (fun x => x * (1 / 255)) a]),
      (map3 (fun x => x * (1 / 255)) a).
    split; [done|]. split; [by apply list_lookup_middle|].
    split; [by apply lookup_alloc|]. split; [by apply shape3_map3|].
    apply all3_map3. eapply all3_impl; [exact Hrange|].
    intros x [H0 H255]. simpl. change (1 / 255) with (1 # 255). lra.
  - apply Qltb_ge in E. exists image, h, a.
    split; [done|]. split; [done|]. split; [done|]. split; [done|].
    eapply all3_impl2; [exact Hrange | exact (np_max_bound _ _ Hm) |].
    intros x [H0 _] Hx. simpl in Hx. lra.
Qed.

Lemma preprocessor_images_unit_range_witness :
  exists (l : loc) (h' : heap) (out : ndarray),
    preprocessor_images 0%nat 128 [ [[ [200; 0; 51] ]] ] = (Ok l, h') /\
    h' !! l = Some out /\
    all3 (fun x => 0 <= x <= 1) out.
Proof.
  assert (Hs : shape3 [[ [200; 0; 51] ]] 1 1 3)
    by (split; [reflexivity | repeat constructor]).
  assert (Hr : all3 (fun x => 0 <= x <= 255) [[ [200; 0; 51] ]]).
  { repeat constructor; by vm_compute. }
  destruct (preprocessor_images_unit_range [ [[ [200; 0; 51] ]] ] 0%nat
              [[ [200; 0; 51] ]] 1 1 3 200 128 eq_refl eq_refl Hs Hr)
    as (l & h' & out & Hrun & Hl & _ & _ & Hout).
  exists l, h', out. split; [exact Hrun|]. split; [exact Hl | exact Hout].
Defined.

Lemma rescale_fresh_run (h : heap) (img : loc) (a : ndarray) (m : Q) :
  h !! img = Some a -> np_max a = Some m -> 1 < m ->
  rescale img h = (Ok (length h), h ++ [map3 (fun x => x * (1 / 255)) a]) /\
  (h ++ [map3 (fun x => x * (1 / 255)) a]) !! length h
    = Some (map3 (fun x => x * (1 / 255)) a) /\
  np_max (map3 (fun x => x * (1 / 255)) a) = Some (m * (1 / 255)).
Proof.
  intros Ha Hm Hlt. rewrite (rescale_run _ _ _ _ Ha Hm).
  apply Qltb_lt in Hlt. rewrite Hlt. split; [done|].
  split; [by apply list_lookup_middle|].
  rewrite np_max_map3 by apply Qle_bool_scale. by rewrite Hm.
Qed.

(** X2.  Calling [rescale] twice is the same as calling it once on every
    array whose maximum is at most 255: the second call returns the array of
    the first and leaves the store as it is. *)
Theorem rescale_twice (h : heap) (img : loc) (a : ndarray) (m : Q) :
  h !! img = Some a -> np_max a = Some m -> m <= 255 ->
  (let* once := rescale img in rescale once) h = rescale img h.
Proof.
  intros Ha Hm Hle. destruct (Qltb 1 m) eqn:E.
  - apply Qltb_lt in E.
    destruct (rescale_fresh_run _ _ _ _ Ha Hm E) as (Hrun & Hl & Hmax).
    unfold bind. rewrite Hrun. rewrite (rescale_run _ _ _ _ Hl Hmax).
    assert (Hsmall : Qltb 1 (m * (1 / 255)) = false).
    { apply Qltb_ge. change (1 / 255) with (1 # 255). lra. }
    by rewrite Hsmall.
  - unfold bind. rewrite (rescale_run _ _ _ _ Ha Hm), E.
    by rewrite (rescale_run _ _ _ _ Ha Hm), E.
Qed.

Lemma rescale_twice_witness :
  (let* once := rescale 0%nat in rescale once) [ [[ [200; 0; 51] ]] ]
  = rescale 0%nat [ [[ [200; 0; 51] ]] ].
Proof.
  apply (rescale_twice [ [[ [200; 0; 51] ]] ] 0%nat
           [[ [200; 0; 51] ]] 200 eq_refl eq_refl).
  by vm_compute.
Defined.

(** ** binarize *)

Lemma map3_fixed (f : Q -> Q) (a : ndarray) :
  all3 (fun x => f x = x) a -> map3 f a = a.
Proof.
  intros Hf. rewrite (map3_ext_all3 f (fun x => x) a Hf).
  unfold map3. rewrite <- (map2_id a) at 2. unfold map2.
  apply map_ext. intros row. apply map_ext. intros p. apply map_id.
Qed.

Lemma two_level_fixed (cut x : Q) :
  0 <= cut -> cut < 255 -> x = 0 \/ x = 255 -> two_level cut x = x.
Proof.
  intros H0 H255 [-> | ->]; rewrite (two_level_below _ _ H255).
  - assert (E : Qltb cut 0 = false) by (by apply Qltb_ge). by rewrite E.
  - assert (E : Qltb cut 255 = true) by (by apply Qltb_lt). by rewrite E.
Qed.

Lemma binarize_result (h : heap) (img : loc) (a : ndarray) (threshold m : Q) :
  h !! img = Some a -> np_max a = Some m ->
  exists out m',
    binarize img threshold h = (Ok img, <[img := out]> h) /\
    <[img := out]> h !! img = Some out /\
    all3 (fun x => x = 0 \/ x = 255) out /\
    np_max out = Some m' /\ (m' = 0 \/ m' = 255) /\
    exists f, out = map3 f a.
Proof.
  intros Ha Hm. rewrite (binarize_run _ _ _ _ _ Ha Hm).
  set (out := map3 _ a).
  assert (Hall : all3 (fun x => x = 0 \/ x = 255) out).
  { apply all3_map3, all3_true. intros x. apply two_level_range. }
  destruct (np_max_map3_is_Some
              (two_level (if Qltb 1 m then threshold else threshold / 255))
              a m Hm) as [m' Hm'].
  exists out, m'. split; [done|].
  split; [apply list_lookup_insert_eq; by eapply lookup_lt_Some|].
  split; [done|]. split; [done|].
  split; [by apply (np_max_all3 _ _ _ Hm' Hall) | by eexists].
Qed.

(** X3.  With a threshold from 0 up to, not including, 255, a second
    [binarize] of the same array changes nothing: the call leaves the store
    and returns the reference exactly as the first one did. *)
Theorem binarize_twice (h : heap) (img : loc) (a : ndarray) (threshold m : Q) :
  h !! img = Some a -> np_max a = Some m ->
  0 <= threshold -> threshold < 255 ->
  (let* once := binarize img threshold in binarize once threshold) h
  = binarize img threshold h.
Proof.
  intros Ha Hm H0 H255.
  destruct (binarize_result _ _ _ threshold _ Ha Hm)
    as (out & m' & Hrun & Hl & Hall & Hm' & _ & _).
  unfold bind. rewrite Hrun. rewrite (binarize_run _ _ _ _ _ Hl Hm').
  rewrite list_insert_insert_eq. do 2 f_equal.
  apply map3_fixed. eapply all3_impl; [exact Hall|]. intros x Hx.
  apply two_level_fixed; [| |done]; destruct (Qltb 1 m');
    change (threshold / 255) with (threshold * (1 # 255)); lra.
Qed.

Lemma binarize_twice_witness :
  (let* once := binarize 0%nat 128 in binarize once 128) [ [[ [200; 3; 129] ]] ]
  = binarize 0%nat 128 [ [[ [200; 3; 129] ]] ].
Proof.
  apply (binarize_twice [ [[ [200; 3; 129] ]] ] 0%nat [[ [200; 3; 129] ]]
           128 200 eq_refl eq_refl); by vm_compute.
Defined.

(** X4.  [rescale] followed by [binarize] works on the caller's own array
    when the maximum is at most 1, where [rescale] returned its argument:
    the two calls are then one in-place [binarize] of the input.  When the
    maximum exceeds 1 they leave every stored array as it was and the
    snapped values are in the array [rescale] created. *)
Theorem rescale_then_binarize_alias (h : heap) (img : loc) (a : ndarray)
    (m threshold : Q) :
  h !! img = Some a -> np_max a = Some m ->
  (m <= 1 ->
   (let* scaled := rescale img in binarize scaled threshold) h
   = binarize img threshold h) /\
  (1 < m ->
   exists out : ndarray,
     (let* scaled := rescale img in binarize scaled threshold) h
     = (Ok (length h), h ++ [out]) /\
     all3 (fun x => x = 0 \/ x = 255) out).
Proof.
  intros Ha Hm. split.
  - intros Hle. apply Qltb_ge in Hle.
    unfold bind. by rewrite (rescale_run _ _ _ _ Ha Hm), Hle.
  - intros Hlt.
    destruct (rescale_fresh_run _ _ _ _ Ha Hm Hlt) as (Hrun & Hl & Hmax).
    destruct (binarize_result _ _ _ threshold _ Hl Hmax)
      as (out & m' & Hbin & _ & Hall & _ & _ & _).
    exists out. split; [|done].
    unfold bind. rewrite Hrun, Hbin. f_equal.
    rewrite insert_app_r_alt by lia. by rewrite Nat.sub_diag.
Qed.

Lemma rescale_then_binarize_alias_witness :
  (let* scaled := rescale 0%nat in binarize scaled 128) [ [[ [1; 0; 1 # 4] ]] ]
  = binarize 0%nat 128 [ [[ [1; 0; 1 # 4] ]] ].
Proof.
  apply (proj1 (rescale_then_binarize_alias [ [[ [1; 0; 1 # 4] ]] ] 0%nat
                  [[ [1; 0; 1 # 4] ]] 1 128 eq_refl eq_refl)).
  by vm_compute.
Defined.

(** X5.  [binarize] followed by [rescale] yields an array of the input's
    shape in which every element equals 0 or 1, whatever the threshold. *)
Theorem binarize_then_rescale_zero_one (h : heap) (img : loc) (a : ndarray)
    (H W C : nat) (m threshold : Q) :
  h !! img = Some a -> np_max a = Some m -> shape3 a H W C ->
  exists (l : loc) (h' : heap) (out : ndarray),
    (let* snapped := binarize img threshold in rescale snapped) h = (Ok l, h') /\
    h' !! l = Some out /\
    shape3 out H W C /\
    all3 (fun x => x == 0 \/ x == 1) out.
Proof.
  intros Ha Hm Hs.
  destruct (binarize_result _ _ _ threshold _ Ha Hm)
    as (out & m' & Hbin & Hl & Hall & Hm' & Hcases & f & Hf).
  assert (Hshape : shape3 out H W C) by (rewrite Hf; by apply shape3_map3).
  unfold bind. rewrite Hbin. rewrite (rescale_run _ _ _ _ Hl Hm').
  destruct Hcases as [-> | ->].
  - exists img, (<[img := out]> h), out.
    split; [done|]. split; [done|]. split; [done|].
    eapply all3_impl2; [exact Hall | exact (np_max_bound _ _ Hm') |].
    intros x [-> | ->] Hx; simpl in Hx; [by left | lra].
  - exists (length (<[img := out]> h)),
      (<[img := out]> h ++ [map3 (fun x => x * (1 / 255)) out]),
      (map3 (fun x => x * (1 / 255)) out).
    split; [done|]. split; [by apply list_lookup_middle|].
    split; [by apply shape3_map3|].
    apply all3_map3. eapply all3_impl; [exact Hall|].
    intros x [-> | ->]; [by left | by right].
Qed.

Lemma binarize_then_rescale_zero_one_witness :
  exists (l : loc) (h' : heap) (out : ndarray),
    (let* snapped := binarize 0%nat 128 in rescale snapped) [ [[ [200; 3; 129] ]] ]
      = (Ok l, h') /\
    h' !! l = Some out /\
    all3 (fun x => x == 0 \/ x == 1) out.
Proof.
  assert (Hs : shape3 [[ [200; 3; 129] ]] 1 1 3)
    by (split; [reflexivity | repeat constructor]).
  destruct (binarize_then_rescale_zero_one [ [[ [200; 3; 129] ]] ] 0%nat
              [[ [200; 3; 129] ]] 1 1 3 200 128 eq_refl eq_refl Hs)
    as (l & h' & out & Hrun & Hl & _ & Hout).
  exists l, h', out. split; [exact Hrun|]. split; [exact Hl | exact Hout].
Defined.

(** ** Methods that leave the store alone *)

Lemma preserves_bind {A B} (m : M A) (k : A -> M B) :
  preserves m -> (forall a, preserves (k a)) -> preserves (bind m k).
Proof.
  intros Hm Hk h l x Hl. unfold bind. specialize (Hm h l x Hl).
  destruct (m h) as [[a|e] h1]; simpl in *; [|done]. by apply Hk.
Qed.

Lemma preserves_load (l : loc) : preserves (load l).
Proof. by intros h l' x Hl. Qed.

Lemma preserves_pure_of {A} (r : result A) : preserves (pure_of r).
Proof. by intros h l x Hl. Qed.

Lemma preserves_ret {A} (a : A) : preserves (ret a).
Proof. by intros h l x Hl. Qed.

Lemma preserves_alloc (a : ndarray) : preserves (alloc a).
Proof. intros h l x Hl. by apply lookup_alloc. Qed.

Lemma preserves_rescale (img : loc) : preserves (rescale img).
Proof.
  unfold rescale, np_max_at.
  apply preserves_bind; [apply preserves_bind;
    [apply preserves_load | intros; apply preserves_pure_of]|].
  intros m. destruct (Qltb 1 m); [|apply preserves_ret].
  apply preserves_bind; [apply preserves_load | intros; apply preserves_alloc].
Qed.

Lemma preserves_one_hot_encode (img : loc) (class_map : option (list Row)) :
  preserves (one_hot_encode img class_map).
Proof.
  unfold one_hot_encode.
  apply preserves_bind; [apply preserves_load | intros a].
  apply preserves_bind; [apply preserves_pure_of | intros; apply preserves_alloc].
Qed.

Lemma preserves_mask_max_pixel_normalize (img : loc) (threshold : Q) :
  preserves (mask_max_pixel_normalize img threshold).
Proof. intros h l x. apply mask_max_pixel_normalize_frame. Qed.

(** X6.  [rescale], [mask_argmax], [one_hot_encode] and the two
    preprocessors change no array that is in the store when they are
    called, whatever their arguments and whether they return or raise: what
    they produce is in arrays of their own. *)
Theorem pipelines_preserve_store (img : loc) (b_threshold : Q)
    (class_map : option (list Row)) :
  preserves (rescale img) /\
  preserves (mask_argmax img) /\
  preserves (one_hot_encode img class_map) /\
  preserves (preprocessor_images img b_threshold) /\
  preserves (preprocessor_masks img b_threshold class_map).
Proof.
  split; [apply preserves_rescale|]. split.
  { unfold mask_argmax.
    apply preserves_bind; [apply preserves_load | intros a].
    apply preserves_bind; [apply preserves_pure_of | intros; apply preserves_alloc]. }
  split; [apply preserves_one_hot_encode|].
  split; [apply preserves_rescale|].
  unfold preprocessor_masks.
  apply preserves_bind; [apply preserves_mask_max_pixel_normalize | intros n].
  apply preserves_bind; [apply preserves_one_hot_encode | intros f].
  apply preserves_rescale.
Qed.

(** ** mask_argmax beyond four channels, and below *)

Lemma shape3_cons_inv (a : ndarray) (H W C : nat) :
  shape3 a H W C -> (0 < H)%nat -> (0 < W)%nat ->
  exists p row rest, a = (p :: row) :: rest /\ length p = C.
Proof.
  intros [HH Hs] H0 W0. destruct a as [|row a]; simpl in HH; [lia|].
  apply Forall_cons_1 in Hs as [[Hr Hp] _].
  destruct row as [|p row]; simpl in Hr; [lia|].
  apply Forall_cons_1 in Hp as [Hp _]. by exists p, row, a.
Qed.

(** There is no plane [c] in an array, with a pixel, of [c] channels or
    fewer. *)
Lemma slice_out_of_range (a : ndarray) (H W C c : nat) :
  shape3 a H W C -> (0 < H)%nat -> (0 < W)%nat -> (C <= c)%nat ->
  slice a c = Raise IndexError.
Proof.
  intros Hs H0 W0 Hc.
  destruct (shape3_cons_inv _ _ _ _ Hs H0 W0) as (p & row & rest & -> & Hp).
  unfold slice. simpl. by rewrite (lookup_ge_None_2 p c) by lia.
Qed.

Lemma argmax_axis2_ok (a : ndarray) (H W C : nat) :
  shape3 a H W C -> (0 < C)%nat -> argmax_axis2 a = Ok (map2 argmax_index a).
Proof.
  intros Hs HC. unfold argmax_axis2. rewrite (mapM2_Some _ argmax_index); [done|].
  eapply List.Forall_impl; [|exact (shape3_pixels _ _ _ _ Hs)]. intros row Hrow.
  eapply List.Forall_impl; [|exact Hrow]. intros p Hp. simpl in Hp.
  destruct (argmax_spec p) as (k & Hk & _); [destruct p; simpl in Hp; [lia|done]|].
  unfold argmax_index. by rewrite Hk.
Qed.

Lemma map3_map2_id (f : Q -> Q) (a : ndarray) : map3 f a = map2 (map f) a.
Proof. reflexivity. Qed.

Lemma shape3_zeros_like (a : ndarray) (H W C : nat) :
  shape3 a H W C -> shape3 (map3 (fun _ => 0) a) H W C.
Proof. apply shape3_map3. Qed.

Lemma mask_argmax_run_wide (h : heap) (predicted_mask : loc) (a : ndarray)
    (H W C : nat) :
  h !! predicted_mask = Some a -> shape3 a H W C -> (4 <= C)%nat ->
  mask_argmax predicted_mask h =
    (Ok (length h), h ++ [map2 (fun p => one_hot 4 (argmax_index p)) a]).
Proof.
  intros Ha Hs HC. unfold mask_argmax. unfold bind at 1. rewrite (load_ok _ _ _ Ha).
  rewrite (argmax_axis2_ok _ _ _ _ Hs) by lia. simpl.
  pose proof (shape3_zeros_like _ _ _ _ Hs) as Hz.
  rewrite !(slice_ok _ _ _ _ _ Hz) by lia. simpl.
  rewrite !map3_map2_id.
  unfold where_set. repeat (progress rewrite ?map2_map2, ?zip2_map2).
  unfold bind, pure_of, alloc. do 3 f_equal.
  pixelwise p. rewrite !chan_zeros. unfold one_hot. simpl.
  by rewrite !(Nat.eqb_sym (argmax_index p)).
Qed.

Lemma argmax_index_one_hot (p : list Q) :
  length p = 4%nat ->
  one_hot 4 (argmax_index (one_hot 4 (argmax_index p))) = one_hot 4 (argmax_index p).
Proof.
  intros Hp. destruct (argmax_spec p) as (k & Hk & Hlt & _); [by destruct p|].
  assert (Hi : argmax_index p = k) by (unfold argmax_index; by rewrite Hk).
  rewrite Hi. destruct k as [|[|[|[|k]]]]; [| | | |lia]; reflexivity.
Qed.

(** X7.  On a (H, W, 4) array [mask_argmax] is idempotent: applied to its
    own result it returns a new array with the same values. *)
Theorem mask_argmax_twice (h : heap) (predicted_mask : loc) (a : ndarray)
    (H W : nat) :
  h !! predicted_mask = Some a -> shape3 a H W 4 ->
  exists out : ndarray,
    mask_argmax predicted_mask h = (Ok (length h), h ++ [out]) /\
    (let* once := mask_argmax predicted_mask in mask_argmax once) h
    = (Ok (S (length h)), h ++ [out; out]).
Proof.
  intros Ha Hs. eexists. split; [by eapply mask_argmax_run|].
  unfold bind. rewrite (mask_argmax_run _ _ _ _ _ Ha Hs).
  set (out := map2 _ a).
  assert (Hout : shape3 out H W 4).
  { eapply shape3_map2; [exact Hs|]. by intros p _. }
  rewrite (mask_argmax_run (h ++ [out]) (length h) out H W);
    [| by apply list_lookup_middle | done].
  rewrite length_app, <- app_assoc, Nat.add_1_r. simpl. do 4 f_equal.
  unfold out. rewrite map2_map2. apply map2_ext_Forall.
  eapply List.Forall_impl; [|exact (shape3_pixels _ _ _ _ Hs)]. intros row Hrow.
  eapply List.Forall_impl; [|exact Hrow]. intros p Hp.
  by apply argmax_index_one_hot.
Qed.

Lemma mask_argmax_twice_witness :
  exists out : ndarray,
    (let* once := mask_argmax 0%nat in mask_argmax once)
      [ [[ [1 # 2; 7; 7; 3]; [0; 0; 0; 0] ]] ]
    = (Ok 2%nat, [ [[ [1 # 2; 7; 7; 3]; [0; 0; 0; 0] ]]; out; out ]).
Proof.
  assert (Hs : shape3 [[ [1 # 2; 7; 7; 3]; [0; 0; 0; 0] ]] 1 2 4)
    by (split; [reflexivity | repeat constructor]).
  destruct (mask_argmax_twice [ [[ [1 # 2; 7; 7; 3]; [0; 0; 0; 0] ]] ] 0%nat
              [[ [1 # 2; 7; 7; 3]; [0; 0; 0; 0] ]] 1 2 eq_refl Hs)
    as (out & _ & Htwice).
  exists out. exact Htwice.
Defined.

Lemma one_hot_beyond (k : nat) : (4 <= k)%nat -> one_hot 4 k = [0; 0; 0; 0].
Proof. intros Hk. destruct k as [|[|[|[|k]]]]; [lia..|reflexivity]. Qed.

(** X8.  [mask_argmax] serves exactly four classes.  On an array with a
    pixel: without channels it raises ValueError, with one to three channels
    IndexError, the store unchanged; with more than four channels it still
    returns four, and a pixel whose first maximum sits in channel 4 or
    beyond comes out with all four channels 0. *)
Theorem mask_argmax_channel_count (h : heap) (predicted_mask : loc)
    (a : ndarray) (H W C : nat) :
  h !! predicted_mask = Some a -> shape3 a H W C ->
  (0 < H)%nat -> (0 < W)%nat ->
  (C = 0%nat -> mask_argmax predicted_mask h = (Raise ValueError, h)) /\
  ((0 < C < 4)%nat -> mask_argmax predicted_mask h = (Raise IndexError, h)) /\
  ((4 <= C)%nat ->
   exists out : ndarray,
     mask_argmax predicted_mask h = (Ok (length h), h ++ [out]) /\
     shape3 out H W 4 /\
     forall i j p, pixel a i j = Some p ->
       exists k, first_max p k /\
         pixel out i j = Some (one_hot 4 k) /\
         ((4 <= k)%nat -> one_hot 4 k = [0; 0; 0; 0])).
Proof.
  intros Ha Hs H0 W0. split; [|split].
  - intros ->.
    destruct (shape3_cons_inv _ _ _ _ Hs H0 W0) as (p & row & rest & -> & Hp).
    destruct p; [|done].
    unfold mask_argmax, bind. by rewrite (load_ok _ _ _ Ha).
  - intros HC. unfold mask_argmax. unfold bind at 1. rewrite (load_ok _ _ _ Ha).
    rewrite (argmax_axis2_ok _ _ _ _ Hs) by lia. simpl.
    pose proof (shape3_zeros_like _ _ _ _ Hs) as Hz.
    destruct C as [|[|[|[|C]]]]; [lia | | | | lia];
      rewrite !(slice_ok _ _ _ _ _ Hz) by lia;
      by rewrite (slice_out_of_range _ _ _ _ _ Hz H0 W0) by lia.
  - intros HC. eexists. split; [by eapply mask_argmax_run_wide|]. split.
    + eapply shape3_map2; [exact Hs|]. by intros p _.
    + intros i j p Hp. rewrite pixel_map2, Hp. simpl.
      pose proof (pixel_Forall _ _ _ _ _ (shape3_pixels _ _ _ _ Hs) Hp) as Hlen.
      simpl in Hlen.
      destruct (argmax_spec p) as (k & Hk & Hlt & Hfm);
        [destruct p; simpl in Hlen; [lia|done]|].
      unfold argmax_index. rewrite Hk. simpl.
      exists k. split; [done|]. split; [done|]. apply one_hot_beyond.
Qed.

Lemma mask_argmax_channel_count_witness :
  mask_argmax 0%nat [ [[ [1; 5; 2] ]] ] = (Raise IndexError, [ [[ [1; 5; 2] ]] ]).
Proof.
  assert (Hs : shape3 [[ [1; 5; 2] ]] 1 1 3)
    by (split; [reflexivity | repeat constructor]).
  apply (proj1 (proj2 (mask_argmax_channel_count [ [[ [1; 5; 2] ]] ] 0%nat
                         [[ [1; 5; 2] ]] 1 1 3 eq_refl Hs
                         ltac:(lia) ltac:(lia)))).
  lia.
Defined.

(** ** one_hot_encode, channel by channel *)



(** X10.  With an empty class map [one_hot_encode] reads no channel and
    returns a (H, W, 0) array, whatever the channel count of the input.
    With a class map of at least one row, an input that has a pixel and
    fewer than three channels raises IndexError and the store is unchanged. *)
Theorem one_hot_encode_edges (h : heap) (img : loc) (a : ndarray) (H W C : nat) :
  h !! img = Some a -> shape3 a H W C ->
  one_hot_encode img (Some []) h = (Ok (length h), h ++ [map2 (fun _ => []) a]) /\
  (forall class_map : option (list Row),
     default default_class_map class_map <> [] ->
     (0 < H)%nat -> (0 < W)%nat -> (C < 3)%nat ->
     one_hot_encode img class_map h = (Raise IndexError, h)).
Proof.
  intros Ha Hs. split.
  - unfold one_hot_encode. unfold bind at 1. rewrite (load_ok _ _ _ Ha).
    by rewrite (np_zeros_shape _ _ _ _ _ Hs).
  - intros class_map Hne H0 W0 HC. unfold one_hot_encode.
    unfold bind at 1. rewrite (load_ok _ _ _ Ha).
    destruct (default default_class_map class_map) as [|row rows]; [done|].
    unfold bind, pure_of. simpl. unfold encode_class.
    destruct C as [|[|[|C]]]; [| | |lia];
      rewrite ?(slice_ok _ _ _ _ _ Hs) by lia;
      by rewrite (slice_out_of_range _ _ _ _ _ Hs H0 W0) by lia.
Qed.

Lemma one_hot_encode_edges_witness :
  one_hot_encode 0%nat None [ [[ [1; 0] ]] ] = (Raise IndexError, [ [[ [1; 0] ]] ]).
Proof.
  assert (Hs : shape3 [[ [1; 0] ]] 1 1 2)
    by (split; [reflexivity | repeat constructor]).
  apply (proj2 (one_hot_encode_edges [ [[ [1; 0] ]] ] 0%nat [[ [1; 0] ]] 1 1 2
                  eq_refl Hs) None); [done | lia | lia | lia].
Defined.

(** ** reverse_one_hot_encode: values and errors *)

Lemma chan_cases (P : Q -> Prop) (k : nat) (q : list Q) :
  Forall P q -> P 0 -> P (chan k q).
Proof.
  intros Hq H0. unfold chan. destruct (q !! k) as [x|] eqn:Hk; simpl; [|done].
  by eapply Forall_lookup_1.
Qed.

Lemma temp_pixel_cases (P : Q -> Prop) (row : Row) (c k : nat) (q : list Q) :
  Forall P q -> P 0 -> P (chan c (temp_pixel row k q)).
Proof.
  intros Hq H0. apply chan_cases; [|done]. unfold temp_pixel.
  pose proof (chan_cases P k q Hq H0) as Hk.
  destruct (Qltb 0 (r row)), (Qltb 0 (g row)), (Qltb 0 (b row)); simpl;
    repeat constructor; done.
Qed.

Lemma plane_fns_cases (P : Q -> Prop) (c k : nat) (rows : list Row) (q : list Q) :
  Forall P q -> P 0 -> Forall P (map (fun f => f q) (plane_fns c k rows)).
Proof.
  intros Hq H0. revert k. induction rows as [|row rows IH]; intros k; simpl.
  - constructor.
  - constructor; [by apply temp_pixel_cases | apply IH].
Qed.

Lemma max_of_cases (P : Q -> Prop) (l : list Q) : Forall P l -> P 0 -> P (max_of l).
Proof.
  intros Hl H0. unfold max_of. destruct (max_list l) as [m|] eqn:Hm; simpl; [|done].
  apply max_list_spec in Hm as [Hin _]. rewrite List.Forall_forall in Hl.
  by apply Hl, list_elem_of_In.
Qed.

Lemma decode_pixel_cases (P : Q -> Prop) (cm : list Row) (q : list Q) :
  Forall P q -> P 0 -> Forall P (decode_pixel cm q).
Proof.
  intros Hq H0. unfold decode_pixel.
  repeat constructor; apply max_of_cases; try done; by apply plane_fns_cases.
Qed.

(** X11.  When the array has an element and the class map has at least one
    row and no more rows than the array has channels,
    [reverse_one_hot_encode] returns a new (H, W, 3) array whose every
    element is 0 or 255, never a value on the [0,1] scale. *)
Theorem reverse_one_hot_encode_range (h : heap) (img : loc) (a : ndarray)
    (H W C : nat) (m : Q) (class_map : option (list Row)) :
  let cm := default default_class_map class_map in
  h !! img = Some a -> np_max a = Some m -> shape3 a H W C ->
  cm <> [] -> (length cm <= C)%nat ->
  exists (h' : heap) (rgb : ndarray),
    reverse_one_hot_encode img class_map h = (Ok (length h), h') /\
    h !! length h = None /\
    h' !! length h = Some rgb /\
    shape3 rgb H W 3 /\
    all3 (fun x => x = 0 \/ x = 255) rgb.
Proof.
  intros cm Ha Hm Hs Hcm Hlen.
  rewrite (reverse_one_hot_encode_run h img a H W C m class_map Ha Hm Hs Hcm Hlen).
  fold cm. set (snapped := map3 _ a).
  exists (<[img := snapped]> h ++ [map2 (decode_pixel cm) snapped]),
         (map2 (decode_pixel cm) snapped).
  split; [done|]. split; [by apply lookup_ge_None_2|].
  split; [apply list_lookup_middle; by rewrite length_insert|]. split.
  - eapply shape3_map2; [by apply shape3_map3|]. by intros q _.
  - assert (Hsn : all3 (fun x => x = 0 \/ x = 255) snapped).
    { apply all3_map3, all3_true. intros x. apply two_level_range. }
    unfold all3, map2 in *. apply Forall_fmap.
    eapply List.Forall_impl; [|exact Hsn]. intros row Hrow. apply Forall_fmap.
    eapply List.Forall_impl; [|exact Hrow]. intros q Hq.
    apply decode_pixel_cases; [done | by left].
Qed.

Lemma reverse_one_hot_encode_range_witness :
  exists (h' : heap) (rgb : ndarray),
    reverse_one_hot_encode 0%nat None [ [[ [9 # 10; 1 # 10; 0; 6 # 10] ]] ]
      = (Ok 1%nat, h') /\
    h' !! 1%nat = Some rgb /\
    all3 (fun x => x = 0 \/ x = 255) rgb.
Proof.
  assert (Hs : shape3 [[ [9 # 10; 1 # 10; 0; 6 # 10] ]] 1 1 4)
    by (split; [reflexivity | repeat constructor]).
  destruct (reverse_one_hot_encode_range [ [[ [9 # 10; 1 # 10; 0; 6 # 10] ]] ]
              0%nat [[ [9 # 10; 1 # 10; 0; 6 # 10] ]] 1 1 4 (9 # 10) None
              eq_refl eq_refl Hs ltac:(done) ltac:(simpl; lia))
    as (h' & rgb & Hrun & _ & Hl & _ & Hall).
  exists h', rgb. split; [exact Hrun|]. split; [exact Hl | exact Hall].
Defined.

Lemma decode_rows_overflow (img : ndarray) (H W C : nat) (rows : list Row) :
  shape3 img H W C -> (0 < H)%nat -> (0 < W)%nat ->
  forall (k : nat) (reds greens blues : list channel),
    (k <= C < k + length rows)%nat ->
    decode_rows img rows k reds greens blues = Raise IndexError.
Proof.
  intros Hs H0 W0. induction rows as [|row rows IH];
    intros k reds greens blues Hk; simpl in *; [lia|].
  destruct (decide (k < C)%nat) as [Hlt|Hge].
  - rewrite (decode_class_run _ _ _ _ row k Hs Hlt). simpl. apply IH. lia.
  - unfold decode_class. by rewrite (slice_out_of_range _ _ _ _ _ Hs H0 W0) by lia.
Qed.

(** X12.  [reverse_one_hot_encode] raises after it has overwritten the
    caller's array.  With an empty class map it raises ValueError on every
    array; with more rows in the class map than the array, which has a
    pixel, has channels it raises IndexError.  In both cases the store is
    left as [binarize] left it. *)
Theorem reverse_one_hot_encode_errors (h : heap) (img : loc) (a : ndarray) :
  h !! img = Some a ->
  reverse_one_hot_encode img (Some []) h
    = (Raise ValueError, (binarize img 128 h).2) /\
  (forall (H W C : nat) (m : Q) (class_map : option (list Row)),
     np_max a = Some m -> shape3 a H W C -> (0 < H)%nat -> (0 < W)%nat ->
     (C < length (default default_class_map class_map))%nat ->
     reverse_one_hot_encode img class_map h
       = (Raise IndexError, (binarize img 128 h).2)).
Proof.
  intros Ha.
  assert (Hlt : (img < length h)%nat) by (by eapply lookup_lt_Some).
  split.
  - unfold reverse_one_hot_encode. unfold bind at 1.
    destruct (np_max a) as [m|] eqn:Hm.
    + rewrite (binarize_run _ _ _ _ _ Ha Hm). simpl.
      set (snapped := map3 _ a).
      unfold bind. rewrite (load_ok _ _ snapped);
        [done | by apply list_lookup_insert_eq].
    + by rewrite (binarize_empty _ _ _ _ Ha Hm).
  - intros H W C m class_map Hm Hs H0 W0 HC.
    unfold reverse_one_hot_encode. unfold bind at 1.
    rewrite (binarize_run _ _ _ _ _ Ha Hm). simpl.
    set (snapped := map3 _ a).
    unfold bind at 1. rewrite (load_ok _ _ snapped)
      by (by apply list_lookup_insert_eq).
    unfold bind, pure_of.
    rewrite (decode_rows_overflow snapped H W C); [done | | done | done | lia].
    by apply shape3_map3.
Qed.

Lemma reverse_one_hot_encode_errors_witness :
  reverse_one_hot_encode 0%nat (Some []) [ [[ [1; 0; 0; 0] ]] ]
  = (Raise ValueError, [ [[ [255; 0; 0; 0] ]] ]).
Proof.
  apply (proj1 (reverse_one_hot_encode_errors [ [[ [1; 0; 0; 0] ]] ] 0%nat
                  [[ [1; 0; 0; 0] ]] eq_refl)).
Defined.

(** ** Decoding, rescaling and encoding again *)

Lemma default_reencode_scaled (k : nat) :
  (k < 4)%nat ->
  encode_pixel default_class_map
    (map (fun x => x * (1 / 255))
       (decode_pixel default_class_map
          (map (two_level (128 / 255)) (one_hot 4 k))))
  = one_hot 4 k.
Proof.
  intros Hk. destruct k as [|[|[|[|k]]]]; [| | | |lia]; by vm_compute.
Qed.

Lemma default_reencode_black (k : nat) :
  (k < 4)%nat ->
  Forall (fun x => x <= 0)
    (decode_pixel default_class_map (map (two_level (128 / 255)) (one_hot 4 k))) ->
  encode_pixel default_class_map
    (decode_pixel default_class_map (map (two_level (128 / 255)) (one_hot 4 k)))
  = one_hot 4 k.
Proof.
  intros Hk Hall. destruct k as [|[|[|[|k]]]]; [| | | |lia].
  - apply Forall_cons_1 in Hall as [Hx _]. vm_compute in Hx. by destruct Hx.
  - apply Forall_cons_1 in Hall as [_ Hall].
    apply Forall_cons_1 in Hall as [_ Hall].
    apply Forall_cons_1 in Hall as [Hx _]. vm_compute in Hx. by destruct Hx.
  - apply Forall_cons_1 in Hall as [_ Hall].
    apply Forall_cons_1 in Hall as [Hx _]. vm_compute in Hx. by destruct Hx.
  - by vm_compute.
Qed.

(** X13.  The other round trip, on a one-hot frame of the default four
    classes in a store: [reverse_one_hot_encode], then [rescale], then
    [one_hot_encode] return an array with the values the frame had before
    the call. *)
Theorem decode_rescale_encode_round_trip (h : heap) (img : loc) (f : ndarray)
    (H W : nat) :
  h !! img = Some f -> shape3 f H W 4 -> (0 < H)%nat -> (0 < W)%nat ->
  (forall i j p, pixel f i j = Some p -> exists k, (k < 4)%nat /\ p = one_hot 4 k) ->
  exists (l : loc) (h' : heap),
    (let* rgb := reverse_one_hot_encode img None in
     let* unit_rgb := rescale rgb in
     one_hot_encode unit_rgb None) h = (Ok l, h') /\
    h' !! l = Some f.
Proof.
  intros Ha Hs H0 W0 Hhot.
  destruct (shape3_first_pixel _ _ _ _ Hs H0 W0) as [p0 Hp0].
  assert (Hf01 : all3 (fun x => x = 0 \/ x = 1) f).
  { unfold all3. eapply List.Forall_impl; [|apply (pixel_all (fun p =>
      exists k, (k < 4)%nat /\ p = one_hot 4 k) f Hhot)].
    intros row Hrow. eapply List.Forall_impl; [|exact Hrow].
    intros p (k & _ & ->). apply one_hot_zero_or_one. }
  destruct (np_max_is_Some f 0 0 p0 Hp0) as [m Hm].
  { destruct (Hhot _ _ _ Hp0) as (k & _ & ->). done. }
  assert (Hm1 : Qltb 1 m = false).
  { apply Qltb_ge. destruct (np_max_all3 _ _ _ Hm Hf01) as [-> | ->]; lra. }
  pose proof (reverse_one_hot_encode_run h img f H W 4 m None Ha Hm Hs) as Hrev.
  simpl in Hrev. rewrite Hm1 in Hrev.
  specialize (Hrev ltac:(done) ltac:(lia)).
  set (snapped := map3 (two_level (128 / 255)) f) in *.
  set (rgb := map2 (decode_pixel default_class_map) snapped) in *.
  set (h1 := <[img := snapped]> h) in *.
  assert (Hlen1 : length h1 = length h) by apply length_insert.
  assert (Hrgb_eq : rgb = map2 (fun p => decode_pixel default_class_map
                                  (map (two_level (128 / 255)) p)) f).
  { unfold rgb, snapped. by rewrite map3_map2_id, map2_map2. }
  assert (Hrgb_shape : shape3 rgb H W 3).
  { eapply shape3_map2; [by apply shape3_map3|]. by intros q _. }
  assert (Hrgb_range : all3 (fun x => x = 0 \/ x = 255) rgb).
  { unfold rgb, snapped, all3, map2, map3. apply Forall_fmap, Forall_fmap.
    apply List.Forall_forall. intros row _. apply Forall_fmap, Forall_fmap.
    apply List.Forall_forall. intros q _. simpl.
    apply decode_pixel_cases; [|by left].
    apply Forall_fmap, List.Forall_forall. intros x _. apply two_level_range. }
  assert (Hl2 : (h1 ++ [rgb]) !! length h = Some rgb)
    by (by apply list_lookup_middle).
  destruct (np_max_is_Some rgb 0 0
              (decode_pixel default_class_map (map (two_level (128 / 255)) p0)))
    as [m2 Hm2]; [by rewrite Hrgb_eq, pixel_map2, Hp0 | done |].
  unfold bind at 1. rewrite Hrev. unfold bind at 1.
  rewrite (rescale_run _ _ _ _ Hl2 Hm2).
  destruct (np_max_all3 _ _ _ Hm2 Hrgb_range) as [-> | ->].
  - (* every pixel decoded to black: [rescale] returns the array itself *)
    change (Qltb 1 0) with false. cbv iota.
    rewrite (one_hot_encode_run _ _ _ _ _ _ None Hl2 Hrgb_shape) by lia.
    eexists _, _. split; [reflexivity|]. simpl.
    rewrite (list_lookup_middle (h1 ++ [rgb]) [] _ _ eq_refl). f_equal.
    rewrite Hrgb_eq, map2_map2. rewrite <- (map2_id f) at 2.
    apply map2_ext_Forall, pixel_all. intros i j p Hp.
    destruct (Hhot _ _ _ Hp) as (k & Hk & ->).
    apply default_reencode_black; [done|].
    assert (Hpx : pixel rgb i j = Some (decode_pixel default_class_map
                    (map (two_level (128 / 255)) (one_hot 4 k))))
      by (by rewrite Hrgb_eq, pixel_map2, Hp).
    apply (pixel_Forall _ _ _ _ _ (np_max_bound _ _ Hm2) Hpx).
  - (* some pixel has a 255: [rescale] builds the unit-scale array *)
    change (Qltb 1 255) with true. cbv iota.
    set (unit_rgb := map3 (fun x => x * (1 / 255)) rgb).
    assert (Hl3 : ((h1 ++ [rgb]) ++ [unit_rgb]) !! length (h1 ++ [rgb])
                  = Some unit_rgb) by (by apply list_lookup_middle).
    rewrite (one_hot_encode_run _ _ _ H W 3 None Hl3) by
      (first [by apply shape3_map3 | lia]).
    eexists _, _. split; [reflexivity|]. simpl.
    rewrite (list_lookup_middle ((h1 ++ [rgb]) ++ [unit_rgb]) [] _ _ eq_refl).
    f_equal. unfold unit_rgb. rewrite Hrgb_eq, map3_map2, map2_map2.
    rewrite <- (map2_id f) at 2.
    apply map2_ext_Forall, pixel_all. intros i j p Hp.
    destruct (Hhot _ _ _ Hp) as (k & Hk & ->).
    by apply default_reencode_scaled.
Qed.

Lemma decode_rescale_encode_round_trip_witness :
  exists (l : loc) (h' : heap),
    (let* rgb := reverse_one_hot_encode 0%nat None in
     let* unit_rgb := rescale rgb in
     one_hot_encode unit_rgb None) [ [[ [0; 1; 0; 0]; [0; 0; 0; 1] ]] ]
    = (Ok l, h') /\
    h' !! l = Some [[ [0; 1; 0; 0]; [0; 0; 0; 1] ]].
Proof.
  assert (Hs : shape3 [[ [0; 1; 0; 0]; [0; 0; 0; 1] ]] 1 2 4)
    by (split; [reflexivity | repeat constructor]).
  apply (decode_rescale_encode_round_trip [ [[ [0; 1; 0; 0]; [0; 0; 0; 1] ]] ]
           0%nat [[ [0; 1; 0; 0]; [0; 0; 0; 1] ]] 1 2 eq_refl Hs);
    [lia | lia |].
  intros [|i] j p Hp; [|done].
  destruct j as [|[|j]]; [| |done]; injection Hp as <-.
  - exists 1%nat. split; [lia | reflexivity].
  - exists 3%nat. split; [lia | reflexivity].
Defined.

(** ** mask_max_pixel_normalize: the maximum, and the channel count *)

Lemma channel_max_unique (a : ndarray) (c : nat) (m m' : Q) :
  channel_max a c m -> channel_max a c m' -> m == m'.
Proof.
  intros [(i & j & p & Hp & Hm) Hub] [(i' & j' & p' & Hp' & Hm') Hub'].
  pose proof (Hub _ _ _ _ Hp' Hm'). pose proof (Hub' _ _ _ _ Hp Hm). lra.
Qed.

Lemma mask_max_pixel_normalize_ok (h : heap) (img : loc) (a : ndarray)
    (H W : nat) (threshold : Q) :
  h !! img = Some a -> shape3 a H W 3 -> (0 < H)%nat -> (0 < W)%nat ->
  exists mR mG mB,
    channel_max a 0 mR /\ channel_max a 1 mG /\ channel_max a 2 mB /\
    mask_max_pixel_normalize img threshold h =
      (Ok (length h), h ++ [map2 (normalize_pixel mR mG mB threshold) a]).
Proof.
  intros Ha Hs H0 W0. destruct (shape3_first_pixel _ _ _ _ Hs H0 W0) as [p0 Hp0].
  destruct (chan_max_is_Some (chan 0) _ _ _ _ Hp0) as [mR HR].
  destruct (chan_max_is_Some (chan 1) _ _ _ _ Hp0) as [mG HG].
  destruct (chan_max_is_Some (chan 2) _ _ _ _ Hp0) as [mB HB].
  exists mR, mG, mB.
  split; [eapply chan_max_channel_max; eauto; lia|].
  split; [eapply chan_max_channel_max; eauto; lia|].
  split; [eapply chan_max_channel_max; eauto; lia|].
  by eapply mask_max_pixel_normalize_run.
Qed.

Lemma normalize_pixel_chan (mR mG mB threshold : Q) (p : list Q) (c : nat) :
  (c < 3)%nat ->
  normalize_pixel mR mG mB threshold p !! c =
    Some (let mc := match c with 0%nat => mR | 1%nat => mG | _ => mB end in
          if Qltb (mc * threshold) (chan c p) then 1 else chan c p).
Proof.
  intros Hc. destruct c as [|[|[|c]]]; [done | done | done | lia].
Qed.



(** X15.  [mask_max_pixel_normalize] reads the first three channels only.
    On an image with a pixel: with fewer than three channels it raises
    IndexError and the store is unchanged; with more than three it returns a
    (H, W, 3) array, the further channels dropped, each value of the first
    three either kept or set to 1. *)
Theorem mask_max_pixel_normalize_channel_count (h : heap) (img : loc)
    (a : ndarray) (H W C : nat) (threshold : Q) :
  h !! img = Some a -> shape3 a H W C -> (0 < H)%nat -> (0 < W)%nat ->
  ((C < 3)%nat ->
   mask_max_pixel_normalize img threshold h = (Raise IndexError, h)) /\
  ((3 <= C)%nat ->
   exists out : ndarray,
     mask_max_pixel_normalize img threshold h = (Ok (length h), h ++ [out]) /\
     shape3 out H W 3 /\
     forall i j p, pixel a i j = Some p ->
       exists q, pixel out i j = Some q /\
         forall c x, (c < 3)%nat -> p !! c = Some x ->
           exists y, q !! c = Some y /\ (y = 1 \/ y = x)).
Proof.
  intros Ha Hs H0 W0.
  destruct (shape3_first_pixel _ _ _ _ Hs H0 W0) as [p0 Hp0].
  destruct (chan_max_is_Some (chan 0) _ _ _ _ Hp0) as [mR HR].
  destruct (chan_max_is_Some (chan 1) _ _ _ _ Hp0) as [mG HG].
  destruct (chan_max_is_Some (chan 2) _ _ _ _ Hp0) as [mB HB].
  fold (chan_max (map2 (chan 0) a)) in HR.
  fold (chan_max (map2 (chan 1) a)) in HG.
  fold (chan_max (map2 (chan 2) a)) in HB.
  split.
  - intros HC. unfold mask_max_pixel_normalize.
    unfold bind at 1. rewrite (load_ok _ _ _ Ha).
    destruct C as [|[|[|C]]]; [| | |lia].
    + by rewrite (slice_out_of_range _ _ _ _ _ Hs H0 W0) by lia.
    + rewrite (slice_ok _ _ _ _ 0 Hs) by lia. simpl. rewrite HR. simpl.
      by rewrite (slice_out_of_range _ _ _ _ _ Hs H0 W0) by lia.
    + rewrite (slice_ok _ _ _ _ 0 Hs) by lia. simpl. rewrite HR. simpl.
      rewrite (slice_ok _ _ _ _ 1 Hs) by lia. simpl. rewrite HG. simpl.
      by rewrite (slice_out_of_range _ _ _ _ _ Hs H0 W0) by lia.
  - intros HC. exists (map2 (normalize_pixel mR mG mB threshold) a). split.
    { unfold mask_max_pixel_normalize.
      unfold bind at 1. rewrite (load_ok _ _ _ Ha).
      rewrite !(slice_ok _ _ _ _ _ Hs) by lia. simpl.
      rewrite HR. simpl. rewrite HG. simpl. rewrite HB. simpl.
      unfold normalize_channel. rewrite !map2_map2, !zip2_map2.
      unfold bind, pure_of, alloc. done. }
    split; [eapply shape3_map2; [exact Hs|]; by intros p _|].
    intros i j p Hp. rewrite pixel_map2, Hp. simpl.
    eexists; split; [reflexivity|]. intros c x Hc Hx.
    rewrite normalize_pixel_chan by done. eexists; split; [reflexivity|].
    assert (Hch : chan c p = x) by (unfold chan; by rewrite Hx).
    rewrite Hch. simpl.
    match goal with |- context [Qltb ?u ?v] => destruct (Qltb u v) end;
      [by left | by right].
Qed.

Lemma mask_max_pixel_normalize_channel_count_witness :
  mask_max_pixel_normalize 0%nat 0.8 [ [[ [1; 1 # 2] ]] ]
  = (Raise IndexError, [ [[ [1; 1 # 2] ]] ]).
Proof.
  assert (Hs : shape3 [[ [1; 1 # 2] ]] 1 1 2)
    by (split; [reflexivity | repeat constructor]).
  apply (proj1 (mask_max_pixel_normalize_channel_count [ [[ [1; 1 # 2] ]] ]
                  0%nat [[ [1; 1 # 2] ]] 1 1 2 0.8 eq_refl Hs
                  ltac:(lia) ltac:(lia))).
  lia.
Defined.

(** ** preprocessor_masks on masks of the [0,1] scale *)

Lemma normalize_pixel_red (mR mG mB threshold : Q) (p : list Q) :
  chan 0 p <= 1 -> chan 0 (normalize_pixel mR mG mB threshold p) < 2.
Proof.
  intros Hp.
  change (chan 0 (normalize_pixel mR mG mB threshold p))
    with (if Qltb (mR * threshold) (chan 0 p) then 1 else chan 0 p).
  destruct (Qltb (mR * threshold) (chan 0 p)); cbv iota.
  - by vm_compute.
  - eapply Qle_lt_trans; [exact Hp | by vm_compute].
Qed.

Lemma all3_chan (P : Q -> Prop) (a : ndarray) (H W C c i j : nat) (p : list Q) :
  shape3 a H W C -> (c < C)%nat -> all3 P a -> pixel a i j = Some p -> P (chan c p).
Proof.
  intros Hs Hc Hall Hp.
  pose proof (pixel_Forall _ _ _ _ _ (shape3_pixels _ _ _ _ Hs) Hp) as Hlen.
  pose proof (pixel_Forall _ _ _ _ _ Hall Hp) as HP. simpl in *.
  eapply Forall_lookup_1; [exact HP|]. apply chan_lookup. lia.
Qed.

Lemma concat_concat_empty_pixels (f : ndarray) :
  Forall (Forall (fun q => q = [])) f -> concat (concat f) = [].
Proof.
  induction 1 as [|row f Hrow _ IH]; simpl; [done|].
  rewrite concat_app, IH, app_nil_r. clear IH.
  induction Hrow as [|q row -> _ IH]; simpl; [done|]. exact IH.
Qed.

Lemma lookup_second_new {A} (h : list A) (x y : A) :
  (h ++ [x; y]) !! S (length h) = Some y.
Proof.
  rewrite lookup_app_r by lia.
  by replace (S (length h) - length h)%nat with 1%nat by lia.
Qed.

Lemma preprocessor_masks_unit_run (h : heap) (image : loc) (a : ndarray)
    (H W : nat) (b_threshold : Q) (class_map : option (list Row)) :
  let cm := default default_class_map class_map in
  h !! image = Some a -> shape3 a H W 3 -> (0 < H)%nat -> (0 < W)%nat ->
  all3 (fun x => x <= 1) a -> cm <> [] ->
  exists mR mG mB,
    channel_max a 0 mR /\ channel_max a 1 mG /\ channel_max a 2 mB /\
    let normalized := map2 (normalize_pixel mR mG mB 0.8) a in
    let frame := map2 (encode_pixel cm) normalized in
    preprocessor_masks image b_threshold class_map h
      = (Ok (S (length h)), h ++ [normalized; frame]) /\
    all3 (fun x => x = 0 \/ x = 1) frame.
Proof.
  intros cm Ha Hs H0 W0 Hunit Hcm.
  destruct (mask_max_pixel_normalize_ok _ _ _ _ _ 0.8 Ha Hs H0 W0)
    as (mR & mG & mB & HR & HG & HB & Hnorm).
  exists mR, mG, mB. split; [done|]. split; [done|]. split; [done|].
  set (normalized := map2 (normalize_pixel mR mG mB 0.8) a).
  set (frame := map2 (encode_pixel cm) normalized).
  assert (Hns : shape3 normalized H W 3).
  { eapply shape3_map2; [exact Hs|]. by intros p _. }
  assert (Hframe : frame = map2 (fun p =>
            map (fun row => if hit row (normalize_pixel mR mG mB 0.8 p)
                            then 1 else 0) cm) a).
  { unfold frame, normalized. rewrite map2_map2.
    apply map2_ext_Forall, pixel_all. intros i j p Hp.
    apply encode_pixel_unit_scale; [done|]. apply normalize_pixel_red.
    apply (all3_chan _ a H W 3 0 i j p Hs ltac:(lia) Hunit Hp). }
  assert (Hf01 : all3 (fun x => x = 0 \/ x = 1) frame).
  { rewrite Hframe. unfold all3, map2.
    apply Forall_fmap, List.Forall_forall. intros row _.
    apply Forall_fmap, List.Forall_forall. intros p _.
    apply Forall_fmap, List.Forall_forall. intros r0 _. simpl.
    destruct (hit r0 _); [by right | by left]. }
  split; [|done].
  destruct (shape3_first_pixel _ _ _ _ Hs H0 W0) as [p0 Hp0].
  destruct (np_max_is_Some frame 0 0
              (encode_pixel cm (normalize_pixel mR mG mB 0.8 p0))) as [m Hm].
  { unfold frame, normalized. by rewrite !pixel_map2, Hp0. }
  { unfold encode_pixel. by destruct cm. }
  assert (Hm1 : Qltb 1 m = false).
  { apply Qltb_ge. destruct (np_max_all3 _ _ _ Hm Hf01) as [-> | ->]; lra. }
  unfold preprocessor_masks. unfold bind at 1. rewrite Hnorm.
  fold normalized. unfold bind at 1.
  rewrite (one_hot_encode_run (h ++ [normalized]) (length h) normalized H W 3
             class_map); [| by apply list_lookup_middle | done | lia].
  fold cm. fold frame.
  rewrite (rescale_run _ _ frame m); [| by apply list_lookup_middle | done].
  rewrite Hm1, length_app, <- app_assoc. simpl. by rewrite Nat.add_1_r.
Qed.

(** X16.  On a 3-channel mask with a pixel and values up to 1,
    [preprocessor_masks] with a class map of at least one row returns a new
    (H, W, N) array of 0 and 1 and leaves the mask as it was: the closing
    [rescale] finds a maximum of at most 1 and returns the frame itself.
    With an empty class map the frame has no element and that [rescale]
    raises ValueError. *)
Theorem preprocessor_masks_unit_scale (h : heap) (image : loc) (a : ndarray)
    (H W : nat) (b_threshold : Q) :
  h !! image = Some a -> shape3 a H W 3 -> (0 < H)%nat -> (0 < W)%nat ->
  all3 (fun x => x <= 1) a ->
  (forall class_map : option (list Row),
     default default_class_map class_map <> [] ->
     exists (h' : heap) (frame : ndarray),
       preprocessor_masks image b_threshold class_map h
         = (Ok (S (length h)), h') /\
       h' !! S (length h) = Some frame /\
       h' !! image = Some a /\
       shape3 frame H W (length (default default_class_map class_map)) /\
       all3 (fun x => x = 0 \/ x = 1) frame) /\
  (preprocessor_masks image b_threshold (Some []) h).1 = Raise ValueError.
Proof.
  intros Ha Hs H0 W0 Hunit. split.
  - intros class_map Hcm.
    destruct (preprocessor_masks_unit_run h image a H W b_threshold class_map
                Ha Hs H0 W0 Hunit Hcm)
      as (mR & mG & mB & _ & _ & _ & Hrun & Hf01).
    eexists _, _. split; [exact Hrun|].
    split; [by apply lookup_second_new|].
    split; [by apply lookup_app_l_Some|]. split; [|exact Hf01].
    apply (shape3_map2 _ _ H W 3);
      [apply (shape3_map2 _ _ H W 3 3 Hs); by intros p _|].
    intros q _. unfold encode_pixel. by rewrite length_map.
  - destruct (mask_max_pixel_normalize_ok _ _ _ _ _ 0.8 Ha Hs H0 W0)
      as (mR & mG & mB & _ & _ & _ & Hnorm).
    set (normalized := map2 (normalize_pixel mR mG mB 0.8) a) in *.
    assert (Hns : shape3 normalized H W 3).
    { eapply shape3_map2; [exact Hs|]. by intros p _. }
    unfold preprocessor_masks. unfold bind at 1. rewrite Hnorm.
    unfold bind at 1.
    rewrite (one_hot_encode_run (h ++ [normalized]) (length h) normalized H W 3
               (Some [])); [| by apply list_lookup_middle | done | lia].
    unfold rescale, np_max_at. unfold bind at 1 2.
    rewrite (load_ok _ _ (map2 (encode_pixel (default default_class_map (Some [])))
                            normalized)) by (by apply list_lookup_middle).
    unfold pure_of, np_max. rewrite concat_concat_empty_pixels; [done|].
    unfold map2. apply Forall_fmap, List.Forall_forall. intros row _.
    apply Forall_fmap, List.Forall_forall. by intros q _.
Qed.

Lemma preprocessor_masks_unit_scale_witness :
  exists (h' : heap) (frame : ndarray),
    preprocessor_masks 0%nat 128 None [ [[ [9 # 10; 0; 0]; [0; 0; 1] ]] ]
      = (Ok 2%nat, h') /\
    h' !! 2%nat = Some frame /\
    all3 (fun x => x = 0 \/ x = 1) frame.
Proof.
  assert (Hs : shape3 [[ [9 # 10; 0; 0]; [0; 0; 1] ]] 1 2 3)
    by (split; [reflexivity | repeat constructor]).
  assert (Hunit : all3 (fun x => x <= 1) [[ [9 # 10; 0; 0]; [0; 0; 1] ]])
    by (repeat constructor; by vm_compute).
  destruct (proj1 (preprocessor_masks_unit_scale
                     [ [[ [9 # 10; 0; 0]; [0; 0; 1] ]] ] 0%nat
                     [[ [9 # 10; 0; 0]; [0; 0; 1] ]] 1 2 128 eq_refl Hs
                     ltac:(lia) ltac:(lia) Hunit) None ltac:(done))
    as (h' & frame & Hrun & Hl & _ & _ & Hf).
  exists h', frame. split; [exact Hrun|]. split; [exact Hl | exact Hf].
Defined.

Lemma pixel_shape_pos (a : ndarray) (H W C i j : nat) (p : list Q) :
  shape3 a H W C -> pixel a i j = Some p -> (0 < H)%nat /\ (0 < W)%nat.
Proof.
  intros [<- Hs] Hp. unfold pixel in Hp.
  destruct (a !! i) as [row|] eqn:E; [|done]. simpl in Hp.
  destruct (Forall_lookup_1 _ _ _ _ Hs E) as [<- _].
  apply lookup_lt_Some in E, Hp. lia.
Qed.

Lemma pixel_eq3 (x y z x' y' z' : Q) :
  x == x' -> y == y' -> z == z' -> pixel_eq [x; y; z] [x'; y'; z'].
Proof. intros. by repeat apply Forall2_cons. Qed.

Lemma normalize_high (m m' threshold x : Q) :
  m' == m -> m * threshold < x ->
  (if Qltb (m' * threshold) x then 1 else x) = 1.
Proof.
  intros Hm Hx. assert (E : Qltb (m' * threshold) x = true).
  { apply Qltb_lt. rewrite Hm. exact Hx. }
  by rewrite E.
Qed.

Lemma exceeds_rounded_exact (exact x : Q) : exceeds_rounded exact x -> exact < x.
Proof. intros Hx. by apply Hx, within_rounding_exact. Qed.

Lemma normalize_zero (m' x : Q) :
  x <= m' -> x == 0 -> (if Qltb (m' * 0.8) x then 1 else x) == 0.
Proof.
  intros Hle Hx. assert (E : Qltb (m' * 0.8) x = false).
  { apply Qltb_ge. change 0.8 with (8 # 10). lra. }
  by rewrite E.
Qed.

(** X17.  [preprocessor_masks] with the default classes, on a 3-channel
    mask with values up to 1: a pixel whose red value exceeds 0.8 times the
    red maximum, by more than rounding, and whose green and blue are 0 is
    encoded as Sky, (1, 0, 0, 0); likewise blue alone gives Big Rocks, green
    alone Small Rocks, and a pixel of three zeros Unlabeled. *)
Theorem preprocessor_masks_classifies (h : heap) (image : loc) (a : ndarray)
    (H W : nat) (b_threshold mR mG mB : Q) :
  h !! image = Some a -> shape3 a H W 3 -> all3 (fun x => x <= 1) a ->
  channel_max a 0 mR -> channel_max a 1 mG -> channel_max a 2 mB ->
  exists (h' : heap) (frame : ndarray),
    preprocessor_masks image b_threshold None h = (Ok (S (length h)), h') /\
    h' !! S (length h) = Some frame /\
    forall i j x y z, pixel a i j = Some [x; y; z] ->
      (exceeds_rounded (mR * 0.8) x -> y == 0 -> z == 0 ->
       pixel frame i j = Some [1; 0; 0; 0]) /\
      (x == 0 -> y == 0 -> exceeds_rounded (mB * 0.8) z ->
       pixel frame i j = Some [0; 1; 0; 0]) /\
      (x == 0 -> exceeds_rounded (mG * 0.8) y -> z == 0 ->
       pixel frame i j = Some [0; 0; 1; 0]) /\
      (x == 0 -> y == 0 -> z == 0 ->
       pixel frame i j = Some [0; 0; 0; 1]).
Proof.
  intros Ha Hs Hunit HR HG HB.
  destruct HR as [(i0 & j0 & p0 & Hp0 & Hm0) HubR] eqn:ER. clear ER.
  destruct (pixel_shape_pos _ _ _ _ _ _ _ Hs Hp0) as [H0 W0].
  destruct (preprocessor_masks_unit_run h image a H W b_threshold None
              Ha Hs H0 W0 Hunit ltac:(done))
    as (mR' & mG' & mB' & HR' & HG' & HB' & Hrun & _).
  simpl in Hrun.
  assert (EqR : mR' == mR).
  { apply (channel_max_unique a 0); [done|]. split; [|done]. by exists i0, j0, p0. }
  assert (EqG : mG' == mG) by (by apply (channel_max_unique a 1)).
  assert (EqB : mB' == mB) by (by apply (channel_max_unique a 2)).
  eexists _, _. split; [exact Hrun|]. split; [by apply lookup_second_new|].
  intros i j x y z Hp. rewrite !pixel_map2, Hp. simpl.
  assert (Hx : x <= mR') by (by apply (proj2 HR' i j [x; y; z] x Hp)).
  assert (Hy : y <= mG') by (by apply (proj2 HG' i j [x; y; z] y Hp)).
  assert (Hz : z <= mB') by (by apply (proj2 HB' i j [x; y; z] z Hp)).
  assert (Henc : forall k row,
            default_class_map !! k = Some row ->
            pixel_eq (normalize_pixel mR' mG' mB' 0.8 [x; y; z]) (color01 row) ->
            Some (encode_pixel default_class_map
                    (normalize_pixel mR' mG' mB' 0.8 [x; y; z]))
            = Some (one_hot 4 k)).
  { intros k row Hk Heq. f_equal.
    apply (encode_pixel_one_hot default_class_map _ k row); try done.
    - apply distinct_colors_default.
    - repeat constructor. }
  assert (Hzero : forall m' v, v <= m' -> v == 0 ->
            (if Qltb (m' * 0.8) v then 1 else v) == 0 / 255).
  { intros m' v Hle Hv. apply (Qeq_trans _ 0); [by apply normalize_zero|].
    by vm_compute. }
  assert (Hone : (1 : Q) == 255 / 255) by (by vm_compute).
  split; [|split; [|split]].
  - intros Hhigh Hy0 Hz0. apply exceeds_rounded_exact in Hhigh.
    apply (Henc 0%nat _ eq_refl).
    unfold normalize_pixel, chan, color01. simpl.
    rewrite (normalize_high mR mR' 0.8 x EqR Hhigh).
    apply pixel_eq3; [done | by apply Hzero | by apply Hzero].
  - intros Hx0 Hy0 Hhigh. apply exceeds_rounded_exact in Hhigh.
    apply (Henc 1%nat _ eq_refl).
    unfold normalize_pixel, chan, color01. simpl.
    rewrite (normalize_high mB mB' 0.8 z EqB Hhigh).
    apply pixel_eq3; [by apply Hzero | by apply Hzero | done].
  - intros Hx0 Hhigh Hz0. apply exceeds_rounded_exact in Hhigh.
    apply (Henc 2%nat _ eq_refl).
    unfold normalize_pixel, chan, color01. simpl.
    rewrite (normalize_high mG mG' 0.8 y EqG Hhigh).
    apply pixel_eq3; [by apply Hzero | done | by apply Hzero].
  - intros Hx0 Hy0 Hz0. apply (Henc 3%nat _ eq_refl).
    unfold normalize_pixel, chan, color01. simpl.
    apply pixel_eq3; by apply Hzero.
Qed.

Lemma preprocessor_masks_classifies_witness :
  exists (h' : heap) (frame : ndarray),
    preprocessor_masks 0%nat 128 None [ [[ [9 # 10; 0; 0]; [0; 0; 1] ]] ]
      = (Ok 2%nat, h') /\
    h' !! 2%nat = Some frame /\
    pixel frame 0 0 = Some [1; 0; 0; 0].
Proof.
  assert (Hs : shape3 [[ [9 # 10; 0; 0]; [0; 0; 1] ]] 1 2 3)
    by (split; [reflexivity | repeat constructor]).
  assert (Hunit : all3 (fun x => x <= 1) [[ [9 # 10; 0; 0]; [0; 0; 1] ]])
    by (repeat constructor; by vm_compute).
  assert (Hmax : forall c m i j p,
            pixel [[ [9 # 10; 0; 0]; [0; 0; 1] ]] i j = Some p ->
            p !! c = Some m ->
            (forall x, x ∈ [chan c [9 # 10; 0; 0]; chan c [0; 0; 1]] -> x <= m) ->
            channel_max [[ [9 # 10; 0; 0]; [0; 0; 1] ]] c m).
  { intros c m i j p Hp Hm Hub. split; [by exists i, j, p|].
    intros [|i'] j' p' x Hp' Hx; [|done].
    destruct j' as [|[|j']]; [| |done]; injection Hp' as <-; apply Hub;
      unfold chan; rewrite Hx; simpl; [by left | right; by left]. }
  destruct (preprocessor_masks_classifies [ [[ [9 # 10; 0; 0]; [0; 0; 1] ]] ]
              0%nat [[ [9 # 10; 0; 0]; [0; 0; 1] ]] 1 2 128 (9 # 10) 0 1
              eq_refl Hs Hunit)
    as (h' & frame & Hrun & Hl & Hpx).
  - apply (Hmax 0%nat _ 0%nat 0%nat [9 # 10; 0; 0]); [done | done |].
    intros x Hx. repeat (apply elem_of_cons in Hx as [->|Hx]); try by vm_compute.
    by apply elem_of_nil in Hx.
  - apply (Hmax 1%nat _ 0%nat 0%nat [9 # 10; 0; 0]); [done | done |].
    intros x Hx. repeat (apply elem_of_cons in Hx as [->|Hx]); try by vm_compute.
    by apply elem_of_nil in Hx.
  - apply (Hmax 2%nat _ 0%nat 1%nat [0; 0; 1]); [done | done |].
    intros x Hx. repeat (apply elem_of_cons in Hx as [->|Hx]); try by vm_compute.
    by apply elem_of_nil in Hx.
  - exists h', frame. split; [exact Hrun|]. split; [exact Hl|].
    apply (proj1 (Hpx 0%nat 0%nat (9 # 10) 0 0 eq_refl)); [|by vm_compute..].
    intros cut Hcut. unfold within_rounding in Hcut.
    apply Qabs_Qle_condition in Hcut as [_ Hcut].
    assert (Hb : Qabs ((9 # 10) * 0.8) * (1 # 2 ^ 51) + (1 # 2 ^ 1074) <= 1 # 10)
      by (by vm_compute).
    change 0.8 with (8 # 10) in Hcut, Hb. lra.
Defined.

(** ** data_augmentation and RandomChoice *)

Lemma apply_each_length {W} (t : transform W) (imgs : list ndarray) (w : W) :
  length (apply_each t imgs w).1 = length imgs.
Proof.
  revert w. induction imgs as [|img imgs IH]; intros w; simpl; [done|].
  destruct (t img w) as [out w1]. specialize (IH w1).
  destruct (apply_each t imgs w1) as [outs w2]. simpl in *. by rewrite IH.
Qed.

(** X18.  [RandomChoice] called on a list of images applies one transform of
    its list, the same for every image, and returns as many images as it
    received; built on an empty list of transforms it raises IndexError. *)
Theorem RandomChoice_call_one_transform {W} `{RandomSource W}
    (transforms : list (transform W)) (imgs : list ndarray) (w : W) :
  transforms <> [] ->
  (RandomChoice_call [] imgs w).1 = Raise IndexError /\
  exists (t : transform W) (w1 : W),
    t ∈ transforms /\
    RandomChoice_call transforms imgs w
      = (Ok (apply_each t imgs w1).1, (apply_each t imgs w1).2) /\
    length (apply_each t imgs w1).1 = length imgs.
Proof.
  intros Hne. split; [done|].
  destruct transforms as [|t0 ts]; [done|]. unfold RandomChoice_call.
  pose proof (random_below_lt (length (t0 :: ts)) w ltac:(simpl; lia)) as Hlt.
  destruct (random_below (length (t0 :: ts)) w) as [k w1]. simpl in Hlt.
  destruct (lookup_lt_is_Some_2 (t0 :: ts) k Hlt) as [t Ht]. rewrite Ht.
  exists t, w1. split; [by eapply list_elem_of_lookup_2|].
  split; [by destruct (apply_each t imgs w1) | apply apply_each_length].
Qed.

Lemma RandomChoice_call_one_transform_witness :
  (RandomChoice_call (H := constant_source (1 # 2)) [] [ [[ [1; 0; 0] ]] ] tt).1
  = Raise IndexError.
Proof.
  apply (proj1 (RandomChoice_call_one_transform (H := constant_source (1 # 2))
                  [fun img w => (img, w)] [ [[ [1; 0; 0] ]] ] tt ltac:(done))).
Defined.

Lemma RandomChoice_call_single {W} `{RandomSource W} (t : transform W)
    (img : ndarray) (w : W) :
  let w1 := (random_below 1 w).2 in
  RandomChoice_call [t] [img] w = (Ok [(t img w1).1], (t img w1).2).
Proof.
  unfold RandomChoice_call. simpl.
  pose proof (random_below_lt 1 w ltac:(lia)) as Hlt.
  destruct (random_below 1 w) as [k w1]. simpl in *.
  destruct k as [|k]; [|lia]. simpl. by destruct (t img w1).
Qed.

Lemma data_augmentation_paired_run {W} {RS : RandomSource W} {IM : Imaging}
    (ColorJitter : transform W) (image mask : ndarray) (Hi Wi Hm Wm : nat)
    (w : W) :
  shape3 image Hi Wi 3 -> (0 < Hi)%nat -> (0 < Wi)%nat ->
  shape3 mask Hm Wm 3 -> (0 < Hm)%nat -> (0 < Wm)%nat ->
  let u1 := (random_random w).1 in
  let wa := (random_random w).2 in
  let u2 := (random_random wa).1 in
  let wb := (random_random wa).2 in
  let wc := (random_below 1 wb).2 in
  let v := Qltb double_0_2 u1 in
  let hf := Qltb double_0_2 u2 in
  let jittered := ColorJitter (flips v hf (to_bytes image)) wc in
  data_augmentation ColorJitter image mask w
    = (Ok (map3 over_255 jittered.1,
           map3 over_255 (flips v hf (to_bytes mask))),
       jittered.2).
Proof.
  intros Hsi Hi0 Wi0 Hsm Hm0 Wm0 u1 wa u2 wb wc v hf jittered.
  unfold data_augmentation, jittered, wc, v, hf, u2, wb, u1, wa, flips, to_bytes.
  rewrite (Image_fromarray_rgb _ Hi Wi) by (by repeat apply shape3_map3).
  rewrite (Image_fromarray_rgb _ Hm Wm) by (by repeat apply shape3_map3).
  destruct (random_random w) as [x1 w1]. cbn [fst snd]. cbv beta iota.
  destruct (random_random w1) as [x2 w2]. cbn [fst snd]. cbv beta iota.
  destruct (Qltb double_0_2 x1), (Qltb double_0_2 x2); cbv beta iota zeta;
    by rewrite RandomChoice_call_single.
Qed.

(** X19.  On an image and a mask of three channels, each with a pixel and
    values between 0 and 1, [data_augmentation] returns.  The mask gets
    exactly the flips the image gets, the vertical one when the first draw
    of [random.random()] exceeds 0.2 and the horizontal one when the second
    does, and nothing else: the colour jitter is applied once, to the
    flipped image only.  Both results are the byte values divided by 255.
    An exception of [Image.fromarray], on the image or on the mask, ends
    the call before anything is drawn. *)
Theorem data_augmentation_paired {W} {RS : RandomSource W} {IM : Imaging}
    (ColorJitter : transform W) (image mask : ndarray) (Hi Wi Hm Wm : nat)
    (w : W) :
  (forall e, Image_fromarray (to_bytes image) = Raise e ->
     data_augmentation ColorJitter image mask w = (Raise e, w)) /\
  (forall pil e, Image_fromarray (to_bytes image) = Ok pil ->
     Image_fromarray (to_bytes mask) = Raise e ->
     data_augmentation ColorJitter image mask w = (Raise e, w)) /\
  (shape3 image Hi Wi 3 -> (0 < Hi)%nat -> (0 < Wi)%nat ->
   shape3 mask Hm Wm 3 -> (0 < Hm)%nat -> (0 < Wm)%nat ->
   all3 (fun x => 0 <= x <= 1) image -> all3 (fun x => 0 <= x <= 1) mask ->
   let u1 := (random_random w).1 in
   let wa := (random_random w).2 in
   let u2 := (random_random wa).1 in
   let wb := (random_random wa).2 in
   let wc := (random_below 1 wb).2 in
   let v := Qltb double_0_2 u1 in
   let hf := Qltb double_0_2 u2 in
   let jittered := ColorJitter (flips v hf (to_bytes image)) wc in
   (v = true <-> double_0_2 < u1) /\ (hf = true <-> double_0_2 < u2) /\
   data_augmentation ColorJitter image mask w
     = (Ok (map3 over_255 jittered.1,
            map3 over_255 (flips v hf (to_bytes mask))),
        jittered.2)).
Proof.
  split; [|split].
  - intros e He. unfold data_augmentation. unfold to_bytes in He. by rewrite He.
  - intros pil e Hpil He. unfold data_augmentation. unfold to_bytes in Hpil, He.
    by rewrite Hpil, He.
  - intros Hsi Hi0 Wi0 Hsm Hm0 Wm0 _ _ u1 wa u2 wb wc v hf jittered.
    split; [apply Qltb_lt|]. split; [apply Qltb_lt|].
    by apply (data_augmentation_paired_run _ _ _ Hi Wi Hm Wm).
Qed.

Lemma map3_flips (f : Q -> Q) (v hf : bool) (a : ndarray) :
  map3 f (flips v hf a) = flips v hf (map3 f a).
Proof.
  assert (Hv : forall x : ndarray, map3 f (vflip x) = vflip (map3 f x)).
  { intros x. unfold map3, vflip.
    change (map ?k ?l) with (k <$> l). by rewrite fmap_reverse. }
  assert (Hh : forall x : ndarray, map3 f (hflip x) = hflip (map3 f x)).
  { intros x. unfold map3, hflip. rewrite !map_map. apply map_ext. intros row.
    change (map ?k ?l) with (k <$> l). by rewrite fmap_reverse. }
  unfold flips. destruct v, hf; by rewrite ?Hh, ?Hv.
Qed.

Lemma array_eq_map3 (k : Q -> Q) (a : ndarray) :
  all3 (fun x => k x == x) a -> array_eq (map3 k a) a.
Proof.
  unfold all3, array_eq, map3.
  induction 1 as [|row a Hrow _ IH]; simpl; constructor; [|exact IH].
  clear IH. induction Hrow as [|p row Hp _ IH]; simpl; constructor; [|exact IH].
  clear IH. induction Hp as [|x p Hx _ IH]; simpl; constructor; [exact Hx | exact IH].
Qed.

Lemma array_eq_flips (v hf : bool) (a a' : ndarray) :
  array_eq a a' -> array_eq (flips v hf a) (flips v hf a').
Proof.
  assert (Hv : forall x x', array_eq x x' -> array_eq (vflip x) (vflip x')).
  { intros x x'. apply Forall2_reverse. }
  assert (Hh : forall x x', array_eq x x' -> array_eq (hflip x) (hflip x')).
  { intros x x' Hx. unfold array_eq, hflip.
    induction Hx as [|row row' x x' Hrow _ IH]; simpl; constructor; [|exact IH].
    by apply Forall2_reverse. }
  intros Ha. unfold flips. destruct v, hf; auto.
Qed.

Lemma shape3_flips (v hf : bool) (a : ndarray) (H W C : nat) :
  shape3 a H W C -> shape3 (flips v hf a) H W C.
Proof.
  assert (Hv : forall x, shape3 x H W C -> shape3 (vflip x) H W C).
  { intros x [HH Hs]. split; [unfold vflip; by rewrite length_reverse|].
    by apply Forall_reverse. }
  assert (Hh : forall x, shape3 x H W C -> shape3 (hflip x) H W C).
  { intros x [HH Hs]. split; [unfold hflip; by rewrite length_map|].
    unfold hflip. apply Forall_fmap.
    eapply List.Forall_impl; [|exact Hs]. intros row [Hr Hp]. simpl.
    split; [by rewrite length_reverse | by apply Forall_reverse]. }
  intros Ha. unfold flips. destruct v, hf; auto.
Qed.

Lemma all3_flips (P : Q -> Prop) (v hf : bool) (a : ndarray) :
  all3 P a -> all3 P (flips v hf a).
Proof.
  assert (Hv : forall x, all3 P x -> all3 P (vflip x)).
  { intros x Hx. by apply Forall_reverse. }
  assert (Hh : forall x, all3 P x -> all3 P (hflip x)).
  { intros x Hx. unfold all3, hflip. apply Forall_fmap.
    eapply List.Forall_impl; [|exact Hx]. intros row Hrow. simpl.
    by apply Forall_reverse. }
  intros Ha. unfold flips. destruct v, hf; auto.
Qed.

Lemma byte_round_trip {IM : Imaging} (x : Q) :
  x = 0 \/ x = 1 -> over_255 (astype_uint8 (times_255 x)) == x.
Proof.
  intros [-> | ->].
  - rewrite times_255_0. change (astype_uint8 0) with 0. apply over_255_0.
  - rewrite times_255_1. change (astype_uint8 255) with 255. apply over_255_255.
Qed.

(** X20.  A three-channel mask of 0 and 1 comes back from
    [data_augmentation], called with a three-channel image, with its values:
    the returned mask has the shape of the input, every element equal to 0
    or 1, and is the input mask flipped vertically, horizontally, both ways
    or not at all; the round trip through bytes loses nothing. *)
Theorem data_augmentation_binary_mask {W} {RS : RandomSource W} {IM : Imaging}
    (ColorJitter : transform W) (image mask : ndarray) (Hi Wi Hm Wm : nat)
    (w : W) :
  shape3 image Hi Wi 3 -> (0 < Hi)%nat -> (0 < Wi)%nat ->
  shape3 mask Hm Wm 3 -> (0 < Hm)%nat -> (0 < Wm)%nat ->
  all3 (fun x => x = 0 \/ x = 1) mask ->
  exists (v hf : bool) (img msk : ndarray) (w' : W),
    data_augmentation ColorJitter image mask w = (Ok (img, msk), w') /\
    array_eq msk (flips v hf mask) /\
    shape3 msk Hm Wm 3 /\
    all3 (fun x => x == 0 \/ x == 1) msk.
Proof.
  intros Hsi Hi0 Wi0 Hsm Hm0 Wm0 H01.
  pose proof (data_augmentation_paired_run ColorJitter image mask Hi Wi Hm Wm w
                Hsi Hi0 Wi0 Hsm Hm0 Wm0) as Hrun.
  cbv zeta in Hrun. eexists _, _, _, _, _. split; [exact Hrun|].
  unfold to_bytes. rewrite map3_flips, !map3_map3.
  assert (Hval : all3 (fun x => over_255 (astype_uint8 (times_255 x)) == x) mask).
  { eapply all3_impl; [exact H01|]. intros x Hx. by apply byte_round_trip. }
  split; [by apply array_eq_flips, array_eq_map3|].
  split; [by apply shape3_flips, shape3_map3|].
  apply all3_flips, all3_map3.
  eapply all3_impl; [exact H01|]. intros x Hx. simpl.
  pose proof (byte_round_trip x Hx) as Hrt.
  destruct Hx as [-> | ->]; [left | right]; exact Hrt.
Qed.

Lemma data_augmentation_binary_mask_witness :
  exists (v hf : bool) (img msk : ndarray) (w' : unit),
    data_augmentation (RS := constant_source (1 # 2)) (IM := exact_imaging)
      (fun img w => (img, w))
      [[ [1 # 2; 0; 0]; [0; 1; 0] ]] [[ [1; 0; 0]; [0; 1; 0] ]] tt
      = (Ok (img, msk), w') /\
    array_eq msk (flips v hf [[ [1; 0; 0]; [0; 1; 0] ]]).
Proof.
  assert (Hsi : shape3 [[ [1 # 2; 0; 0]; [0; 1; 0] ]] 1 2 3)
    by (split; [reflexivity | repeat constructor]).
  assert (Hs : shape3 [[ [1; 0; 0]; [0; 1; 0] ]] 1 2 3)
    by (split; [reflexivity | repeat constructor]).
  assert (H01 : all3 (fun x => x = 0 \/ x = 1) [[ [1; 0; 0]; [0; 1; 0] ]]).
  { repeat constructor; first [by left | by right]. }
  destruct (data_augmentation_binary_mask (RS := constant_source (1 # 2))
              (IM := exact_imaging)
              (fun img w => (img, w)) [[ [1 # 2; 0; 0]; [0; 1; 0] ]]
              [[ [1; 0; 0]; [0; 1; 0] ]] 1 2 1 2 tt
              Hsi ltac:(lia) ltac:(lia) Hs ltac:(lia) ltac:(lia) H01)
    as (v & hf & img & msk & w' & Hrun & Heq & _).
  exists v, hf, img, msk, w'. split; [exact Hrun | exact Heq].
Defined.

Lemma data_augmentation_paired_witness :
  data_augmentation (RS := constant_source (1 # 2)) (IM := exact_imaging)
    (fun img w => (img, w))
    [[ [1 # 2; 0; 0]; [0; 1; 0] ]] [[ [1; 0; 0]; [0; 1; 0] ]] tt
  = (Ok (map3 (fun x => x / 255)
           (flips true true
              (to_bytes (IM := exact_imaging) [[ [1 # 2; 0; 0]; [0; 1; 0] ]])),
         map3 (fun x => x / 255)
           (flips true true
              (to_bytes (IM := exact_imaging) [[ [1; 0; 0]; [0; 1; 0] ]]))),
     tt).
Proof.
  assert (Hsi : shape3 [[ [1 # 2; 0; 0]; [0; 1; 0] ]] 1 2 3)
    by (split; [reflexivity | repeat constructor]).
  assert (Hs : shape3 [[ [1; 0; 0]; [0; 1; 0] ]] 1 2 3)
    by (split; [reflexivity | repeat constructor]).
  assert (Hri : all3 (fun x => 0 <= x <= 1) [[ [1 # 2; 0; 0]; [0; 1; 0] ]])
    by (repeat constructor; by vm_compute).
  assert (Hrm : all3 (fun x => 0 <= x <= 1) [[ [1; 0; 0]; [0; 1; 0] ]])
    by (repeat constructor; by vm_compute).
  apply (proj2 (proj2 (proj2 (proj2
           (data_augmentation_paired (RS := constant_source (1 # 2))
              (IM := exact_imaging) (fun img w => (img, w))
              [[ [1 # 2; 0; 0]; [0; 1; 0] ]]
              [[ [1; 0; 0]; [0; 1; 0] ]] 1 2 1 2 tt))
           Hsi ltac:(lia) ltac:(lia) Hs ltac:(lia) ltac:(lia) Hri Hrm))).
Defined.
